(** * Hodgkin-Huxley forward-Euler pipeline of [HH/HH.py]

    A shallow embedding of the script [HH/HH.py]: the time grid, the smooth
    step stimulus, the kinetic-rate lambdas, the forward Euler loop, the
    finite-difference derivative traces and the two threshold detectors.

    Numbers.  The script computes on IEEE doubles.  The embedding computes on
    exact reals extended with one non-finite value [NaN]: rounding and
    overflow are idealised away, the result of a division by zero is kept.
    The divisors of the script are [1 - exp(..)] in [alphan] and [alpham],
    which vanish together with their dividends (lemmas [alphan_pole_dividend]
    and [alpham_pole_dividend]: the IEEE result is the nan of 0/0);
    [1 + exp(..)] and the sums [alpha + beta] of finite rates, which are
    positive (lemmas [alphan_pos] to [betah_pos]); [Cm = 1]; the scale of
    [norm.cdf], which scipy checks; and [dt], which is not zero once
    [np.arange] has returned.  So no infinity arises from a division and
    [NaN] is the only non-finite value needed.  What the doubles do beyond
    this (a sum or product that rounds, [np.exp] that overflows on a run that
    has become unstable) is not in the model; the further properties at the
    end of the file are stated so that they do not rest on it: orders and
    signs rather than equalities between differently computed values, and
    voltages restricted to a range on which no rate function overflows.

    Errors.  Python exceptions are the [Raise] results of a small error
    monad; array reads and writes raise [IndexError] out of range, as numpy
    does. *)

From Stdlib Require Import Reals Lra Lia ZArith List.
From stdpp Require Import base list.

Open Scope R_scope.

(** ** Numbers: reals with NaN *)

Inductive num : Type :=
| Fin (r : R)
| NaN.

Coercion Fin : R >-> num.

#[global] Instance num_inhabited : Inhabited num := populate NaN.

Definition is_finite (a : num) : Prop :=
  match a with Fin _ => True | NaN => False end.

Definition lift1 (f : R -> R) (a : num) : num :=
  match a with Fin x => Fin (f x) | NaN => NaN end.

Definition lift2 (f : R -> R -> R) (a b : num) : num :=
  match a, b with
  | Fin x, Fin y => Fin (f x y)
  | _, _ => NaN
  end.

Definition nadd : num -> num -> num := lift2 Rplus.
Definition nsub : num -> num -> num := lift2 Rminus.
Definition nmul : num -> num -> num := lift2 Rmult.
Definition nneg : num -> num := lift1 Ropp.

(** [a / b] on numpy floats: a zero divisor raises nothing (numpy warns) and
    0/0 is nan.  A zero divisor under a non-zero dividend, which the script
    never meets, is given [NaN] as well. *)
Definition ndiv (a b : num) : num :=
  match a, b with
  | Fin x, Fin y => if Req_dec_T y 0 then NaN else Fin (x / y)
  | _, _ => NaN
  end.

(** [a ** k] for a literal exponent [k]. *)
Definition npow (a : num) (k : nat) : num := lift1 (fun x => x ^ k) a.

(** [np.exp], exact on the reals: the overflow of [np.exp] to inf (arguments
    above about 709.78) and its underflow to 0 are outside the model. *)
Definition np_exp : num -> num := lift1 exp.

Definition R_ltb (x y : R) : bool := if Rlt_dec x y then true else false.
Definition R_leb (x y : R) : bool := if Rle_dec x y then true else false.

(** Comparisons: every comparison with nan is False. *)
Definition nlt (a b : num) : bool :=
  match a, b with Fin x, Fin y => R_ltb x y | _, _ => false end.
Definition nle (a b : num) : bool :=
  match a, b with Fin x, Fin y => R_leb x y | _, _ => false end.
Definition ngt (a b : num) : bool := nlt b a.
Definition nge (a b : num) : bool := nle b a.

Declare Scope num_scope.
Delimit Scope num_scope with num.
Bind Scope num_scope with num.

Notation "a + b" := (nadd a b) : num_scope.
Notation "a - b" := (nsub a b) : num_scope.
Notation "a * b" := (nmul a b) : num_scope.
Notation "a / b" := (ndiv a b) : num_scope.
Notation "- a" := (nneg a) : num_scope.
Notation "a ** k" := (npow a k) (at level 30, right associativity) : num_scope.

(** ** Kinetic-rate functions (the lambdas of the script) *)

Module Rates.

Definition alphan (V : num) : num :=
  (0.01 * (V + 55) / (1 - np_exp (-0.1 * (V + 55))))%num.
Definition betan (V : num) : num :=
  (0.125 * np_exp (-0.0125 * (V + 65)))%num.
Definition alpham (V : num) : num :=
  (0.1 * (V + 40) / (1 - np_exp (-0.1 * (V + 40))))%num.
Definition betam (V : num) : num :=
  (4 * np_exp (-0.0556 * (V + 65)))%num.
Definition alphah (V : num) : num :=
  (0.07 * np_exp (-0.05 * (V + 65)))%num.
Definition betah (V : num) : num :=
  (1 / (1 + np_exp (-0.1 * (V + 35))))%num.

Definition ninfty (V : num) : num := (alphan V / (alphan V + betan V))%num.
Definition taun (V : num) : num := (1 / (alphan V + betan V))%num.
Definition minfty (V : num) : num := (alpham V / (alpham V + betam V))%num.
Definition taum (V : num) : num := (1 / (alpham V + betam V))%num.
Definition hinfty (V : num) : num := (alphah V / (alphah V + betah V))%num.
Definition tauh (V : num) : num := (1 / (alphah V + betah V))%num.

End Rates.
Export Rates.

(** ** Membrane parameters and ionic currents *)

Definition Cm : R := 1.
Definition gL : R := 0.3.
Definition EL : R := -54.387.
Definition gK : R := 36.
Definition EK : R := -77.
Definition gNa : R := 120.
Definition ENa : R := 50.

Definition IL (V : num) : num := (- gL * (V - EL))%num.
Definition IK (n V : num) : num := (- gK * n ** 4 * (V - EK))%num.
Definition INa (m h V : num) : num := (- gNa * m ** 3 * h * (V - ENa))%num.
Definition Iion (n m h V : num) : num := (IL V + IK n V + INa m h V)%num.

(** ** Python exceptions *)

Inductive exn : Type := ZeroDivisionError | IndexError.

Inductive res (A : Type) : Type :=
| Ok (a : A)
| Raise (e : exn).
Arguments Ok {A} a.
Arguments Raise {A} e.

Definition bind {A B : Type} (r : res A) (k : A -> res B) : res B :=
  match r with
  | Ok a => k a
  | Raise e => Raise e
  end.

Notation "'let*' x ':=' r 'in' k" := (bind r (fun x => k))
  (at level 10, x name, r at level 100, k at level 200).

(** ** Arrays *)

(** [a[i]] as an expression. *)
Definition getitem (a : list num) (i : nat) : res num :=
  match a !! i with
  | Some x => Ok x
  | None => Raise IndexError
  end.

(** [a[i] = v]. *)
Definition setitem (a : list num) (i : nat) (v : num) : res (list num) :=
  if decide (i < length a)%nat then Ok (<[i:=v]> a) else Raise IndexError.

(** [for i in range(k): body] over a loop state. *)
Fixpoint for_in {S : Type} (body : S -> nat -> res S) (l : list nat) (s : S)
  : res S :=
  match l with
  | [] => Ok s
  | i :: l' => let* s' := body s i in for_in body l' s'
  end.

Definition range (k : nat) : list nat := seq 0 k.

Definition Rceil (r : R) : Z := (- Int_part (- r))%Z.

(** [np.arange(start, stop, step)] on floats: [ceil((stop - start)/step)]
    samples [start + i*step], none when that count is not positive; a zero
    step raises.  The quotient and the samples are exact here, where numpy
    rounds each of them. *)
Definition np_arange (start stop step : R) : res (list num) :=
  if Req_dec_T step 0 then Raise ZeroDivisionError
  else Ok (fmap (fun i : nat => Fin (start + INR i * step))
               (range (Z.to_nat (Rceil ((stop - start) / step))))).

Definition np_zeros_like (a : list num) : list num := fmap (fun _ => Fin 0) a.

(** [np.diff(a)]: [a[i+1] - a[i]], one element fewer. *)
Definition np_diff (a : list num) : list num :=
  zip_with (fun x y => (y - x)%num) a (tail a).

Definition np_append (a : list num) (v : num) : list num := a ++ [v].

(** [np.where(mask)[0]]: the indices where the mask holds, increasing. *)
Fixpoint np_where_from (i : nat) (mask : list bool) : list nat :=
  match mask with
  | [] => []
  | b :: mask' =>
      if b then i :: np_where_from (S i) mask' else np_where_from (S i) mask'
  end.

Definition np_where (mask : list bool) : list nat := np_where_from 0 mask.

(** Elementwise operations of equal-shape arrays and of a scalar with an
    array. *)
Definition vadd : list num -> list num -> list num := zip_with nadd.
Definition vsub : list num -> list num -> list num := zip_with nsub.
Definition smul (c : num) (a : list num) : list num := fmap (nmul c) a.
Definition vdivs (a : list num) (c : num) : list num :=
  fmap (fun x => (x / c)%num) a.
Definition vand : list bool -> list bool -> list bool := zip_with andb.

(** ** Configuration (the module-level constants of the script) *)

Record config : Type := mk_config {
  T : R;
  dt : R;
  StepStrength : R;
  StepTime : R;
  StepWidth : R;
  StepDuration : R;
  V0 : R;
  threshold_dV_dt : R;
  threshold_d2V_dt_min : R;
  threshold_d2V_dt_max : R
}.

(** The values the script is run with ([StepTime = T/3]). *)
Definition reference : config :=
  {| T := 1000; dt := 0.001;
     StepStrength := 30; StepTime := 1000 / 3; StepWidth := 1;
     StepDuration := 300;
     V0 := -65.0;
     threshold_dV_dt := 15;
     threshold_d2V_dt_min := -0.01; threshold_d2V_dt_max := 0.01 |}.

Definition end_stimulus_time (c : config) : R :=
  StepTime c + StepDuration c + 3 * StepWidth c.

(** ** Integrator state and script output *)

Module St.
Record state : Type := mk {
  V : list num;
  n : list num;
  m : list num;
  h : list num
}.
End St.

Module Out.
Record output : Type := mk {
  time : list num;
  Ix : list num;
  V : list num;
  n : list num;
  m : list num;
  h : list num;
  dV_dt : list num;
  d2V_dt : list num;
  threshold_t : option num;
  threshold_v : option num;
  threshold_t_2 : option num;
  threshold_v_2 : option num
}.
End Out.

(** ** Forward Euler loop *)

(** One iteration of the loop body, statement by statement. *)
Definition euler_body (dt : R) (Ix : list num) (s : St.state) (i : nat)
  : res St.state :=
  let '(St.mk V n m h) := s in
  (* n[i+1]=n[i]+dt*((1-n[i])*alphan(V[i])-n[i]*betan(V[i])) *)
  let* ni := getitem n i in
  let* Vi := getitem V i in
  let* n := setitem n (i + 1)
              (ni + dt * ((1 - ni) * alphan Vi - ni * betan Vi))%num in
  (* m[i+1]=m[i]+dt*((1-m[i])*alpham(V[i])-m[i]*betam(V[i])) *)
  let* mi := getitem m i in
  let* Vi := getitem V i in
  let* m := setitem m (i + 1)
              (mi + dt * ((1 - mi) * alpham Vi - mi * betam Vi))%num in
  (* h[i+1]=h[i]+dt*((1-h[i])*alphah(V[i])-h[i]*betah(V[i])) *)
  let* hi := getitem h i in
  let* Vi := getitem V i in
  let* h := setitem h (i + 1)
              (hi + dt * ((1 - hi) * alphah Vi - hi * betah Vi))%num in
  (* V[i+1]=V[i]+dt*(Iion(n[i],m[i],h[i],V[i])+Ix[i])/Cm *)
  let* Vi := getitem V i in
  let* ni := getitem n i in
  let* mi := getitem m i in
  let* hi := getitem h i in
  let* Ixi := getitem Ix i in
  let* V := setitem V (i + 1)
              (Vi + dt * (Iion ni mi hi Vi + Ixi) / Cm)%num in
  Ok (St.mk V n m h).

(** Allocation of the four traces, the initial condition and the loop. *)
Definition integrate (dt V0 : R) (time Ix : list num) : res St.state :=
  let n0 := ninfty V0 in
  let m0 := minfty V0 in
  let h0 := hinfty V0 in
  let V := np_zeros_like time in
  let n := np_zeros_like time in
  let m := np_zeros_like time in
  let h := np_zeros_like time in
  let* V := setitem V 0 V0 in
  let* n := setitem n 0 n0 in
  let* m := setitem m 0 m0 in
  let* h := setitem h 0 h0 in
  for_in (euler_body dt Ix) (range (length time - 1)) (St.mk V n m h).

(** ** Derivative traces *)

(** [x = np.diff(a)/dt; x = np.append(x, 0)]. *)
Definition derivative (dt : R) (a : list num) : list num :=
  np_append (vdivs (np_diff a) dt) 0.

(** ** Detectors *)

(** The [if idx.size > 0: ... else: ...] blocks. *)
Definition first_event (idx : list nat) (time V : list num)
  : res (option num * option num) :=
  match idx with
  | i0 :: _ =>
      let* t := getitem time i0 in
      let* v := getitem V i0 in
      Ok (Some t, Some v)
  | [] => Ok (None, None)
  end.

Definition onset_indices (thr : R) (dV_dt : list num) : list nat :=
  np_where (fmap (fun d => ngt d thr) dV_dt).

Definition band (lo hi : R) (d2V_dt : list num) : list bool :=
  vand (fmap (fun d => nge d lo) d2V_dt) (fmap (fun d => nle d hi) d2V_dt).

Definition window_mask (c : config) (time : list num) : list bool :=
  if Rlt_dec (StepStrength c) 0
  then fmap (fun t => ngt t (end_stimulus_time c)) time
  else vand (fmap (fun t => ngt t (StepTime c)) time)
            (fmap (fun t => nlt t (end_stimulus_time c)) time).

Definition inflection_indices (c : config) (time d2V_dt : list num)
  : list nat :=
  np_where (vand (band (threshold_d2V_dt_min c) (threshold_d2V_dt_max c) d2V_dt)
                 (window_mask c time)).

(** ** The script *)

Section Script.

(** [scipy.special.ndtr], the standard normal cumulative distribution
    function behind [norm.cdf]. *)
Variable ndtr : R -> R.

(** [norm.cdf(x, loc, scale)]: the distribution standardises its argument
    and answers nan for a scale that is not positive. *)
Definition norm_cdf (x : list num) (loc scale : R) : list num :=
  fmap (fun t : num =>
         if Rlt_dec 0 scale
         then lift1 ndtr ((t - loc) / scale)%num
         else NaN) x.

Definition stimulus (c : config) (time : list num) : list num :=
  let Ix := np_zeros_like time in
  let start_cdf := norm_cdf time (StepTime c) (StepWidth c) in
  let end_cdf := norm_cdf time (StepTime c + StepDuration c) (StepWidth c) in
  vadd Ix (smul (StepStrength c) (vsub start_cdf end_cdf)).

Definition run (c : config) : res Out.output :=
  let* time := np_arange 0 (T c) (dt c) in
  let Ix := stimulus c time in
  let* s := integrate (dt c) (V0 c) time Ix in
  let dV_dt := derivative (dt c) (St.V s) in
  let d2V_dt := derivative (dt c) dV_dt in
  let threshold_i := onset_indices (threshold_dV_dt c) dV_dt in
  let* threshold := first_event threshold_i time (St.V s) in
  let threshold_i_2 := inflection_indices c time d2V_dt in
  let* threshold_2 := first_event threshold_i_2 time (St.V s) in
  Ok (Out.mk time Ix (St.V s) (St.n s) (St.m s) (St.h s) dV_dt d2V_dt
             (fst threshold) (snd threshold)
             (fst threshold_2) (snd threshold_2)).

End Script.

(** * Vocabulary of the statements *)

(** The number of samples of the grid of a configuration. *)
Definition grid_size (c : config) : nat := Z.to_nat (Rceil ((T c - 0) / dt c)).

(** The recurrence between the samples at [i] and at [i + 1], with the
    expressions of the loop body. *)
Definition step_rel (dt : R) (Ix : list num) (s : St.state) (i : nat) : Prop :=
  exists Vi ni mi hi Ixi : num,
    St.V s !! i = Some Vi /\ St.n s !! i = Some ni /\
    St.m s !! i = Some mi /\ St.h s !! i = Some hi /\
    Ix !! i = Some Ixi /\
    St.n s !! (i + 1)%nat
      = Some (ni + dt * ((1 - ni) * alphan Vi - ni * betan Vi))%num /\
    St.m s !! (i + 1)%nat
      = Some (mi + dt * ((1 - mi) * alpham Vi - mi * betam Vi))%num /\
    St.h s !! (i + 1)%nat
      = Some (hi + dt * ((1 - hi) * alphah Vi - hi * betah Vi))%num /\
    St.V s !! (i + 1)%nat
      = Some (Vi + dt * (Iion ni mi hi Vi + Ixi) / Cm)%num.

(** Loop invariant after [k] iterations over traces of length [N]. *)
Record euler_inv (dt V0 : R) (N : nat) (Ix : list num) (k : nat)
  (s : St.state) : Prop := {
  inv_len_V : length (St.V s) = N;
  inv_len_n : length (St.n s) = N;
  inv_len_m : length (St.m s) = N;
  inv_len_h : length (St.h s) = N;
  inv_V0 : St.V s !! 0%nat = Some (Fin V0);
  inv_n0 : St.n s !! 0%nat = Some (ninfty V0);
  inv_m0 : St.m s !! 0%nat = Some (minfty V0);
  inv_h0 : St.h s !! 0%nat = Some (hinfty V0);
  inv_steps : forall j : nat, (j < k)%nat -> step_rel dt Ix s j
}.

(** The samples [0 + i*dt] of the grid of a configuration. *)
Definition grid (c : config) : list num :=
  (fun i : nat => Fin (0 + INR i * dt c)) <$> range (grid_size c).

(** The sample of [a] at the first index of [idx], if any. *)
Definition event_of (idx : list nat) (a : list num) : option num :=
  match idx with
  | i0 :: _ => a !! i0
  | [] => None
  end.

(** The result of the script on a configuration with a non-empty grid. *)
Definition output_of (c : config) (Ix : list num) (s : St.state) : Out.output :=
  let dV_dt := derivative (dt c) (St.V s) in
  let d2V_dt := derivative (dt c) dV_dt in
  let threshold_i := onset_indices (threshold_dV_dt c) dV_dt in
  let threshold_i_2 := inflection_indices c (grid c) d2V_dt in
  Out.mk (grid c) Ix (St.V s) (St.n s) (St.m s) (St.h s) dV_dt d2V_dt
         (event_of threshold_i (grid c)) (event_of threshold_i (St.V s))
         (event_of threshold_i_2 (grid c)) (event_of threshold_i_2 (St.V s)).

(** A concrete distribution function (the point mass at 0) to run the script
    on in examples, in place of [scipy.special.ndtr]. *)
Definition step_cdf (x : R) : R := if Rle_dec 0 x then 1 else 0.

(** A small configuration: five samples [0, 0.5, 1, 1.5, 2], an inhibitory
    pulse whose [end_stimulus_time = 0 + 0.5 + 3*0.5] is the last sample. *)
Definition inhibitory5 : config :=
  {| T := 2.5; dt := 0.5;
     StepStrength := -1; StepTime := 0; StepWidth := 0.5; StepDuration := 0.5;
     V0 := -65.0;
     threshold_dV_dt := 15;
     threshold_d2V_dt_min := -0.01; threshold_d2V_dt_max := 0.01 |}.

(** The configuration [c] with its step strength replaced by [A]. *)
Definition with_StepStrength (A : R) (c : config) : config :=
  {| T := T c; dt := dt c;
     StepStrength := A; StepTime := StepTime c; StepWidth := StepWidth c;
     StepDuration := StepDuration c;
     V0 := V0 c;
     threshold_dV_dt := threshold_dV_dt c;
     threshold_d2V_dt_min := threshold_d2V_dt_min c;
     threshold_d2V_dt_max := threshold_d2V_dt_max c |}.

(** The window of the inflection search, as the masks of the script select
    it: strictly after [end_stimulus_time] for a negative step strength,
    strictly between [StepTime] and [end_stimulus_time] otherwise. *)
Definition search_window (c : config) (t : R) : Prop :=
  if Rlt_dec (StepStrength c) 0
  then end_stimulus_time c < t
  else StepTime c < t /\ t < end_stimulus_time c.

(** The window with the inhibitory branch closed at [end_stimulus_time]
    ("at or after"). *)
Definition closed_search_window (c : config) (t : R) : Prop :=
  if Rlt_dec (StepStrength c) 0
  then end_stimulus_time c <= t
  else StepTime c < t /\ t < end_stimulus_time c.

(** Index [i] passes the onset test [dV_dt > threshold_dV_dt]. *)
Definition onset_candidate (c : config) (o : Out.output) (i : nat) : Prop :=
  exists d : R, Out.dV_dt o !! i = Some (Fin d) /\ threshold_dV_dt c < d.

(** Index [i] passes the inflection test: [d2V_dt[i]] in the closed band and
    [time[i]] in the window. *)
Definition inflection_candidate (window : config -> R -> Prop) (c : config)
  (o : Out.output) (i : nat) : Prop :=
  exists t d : R,
    Out.time o !! i = Some (Fin t) /\ Out.d2V_dt o !! i = Some (Fin d)
    /\ threshold_d2V_dt_min c <= d <= threshold_d2V_dt_max c
    /\ window c t.

(** A detector reports the pair [(time[i0], V[i0])] of the first candidate
    index [i0], or the pair [(None, None)] when there is no candidate. *)
Definition first_reported (cand : nat -> Prop) (o : Out.output)
  (rt rv : option num) : Prop :=
  (exists (i0 : nat) (t v : num),
      cand i0 /\ (forall j : nat, (j < i0)%nat -> ~ cand j)
      /\ Out.time o !! i0 = Some t /\ Out.V o !! i0 = Some v
      /\ rt = Some t /\ rv = Some v)
  \/ ((forall j : nat, ~ cand j) /\ rt = None /\ rv = None).

(** A configuration with a negative duration and a negative step: the grid
    is [0, -0.5, -1, -1.5, -2]. *)
Definition reversed5 : config :=
  {| T := -2.5; dt := -0.5;
     StepStrength := 30; StepTime := 0; StepWidth := 0.5; StepDuration := 0.5;
     V0 := -65.0;
     threshold_dV_dt := 15;
     threshold_d2V_dt_min := -0.01; threshold_d2V_dt_max := 0.01 |}.

(** * The rest of the script *)

(** ** Search for a target voltage *)

Definition V_target : R := -54.87.
Definition tolerance : R := 0.01.

(** [np.abs]. *)
Definition np_abs : num -> num := lift1 Rabs.

(** [np.where(np.abs(V - V_target) < tolerance)[0]]. *)
Definition indices_at_V_target (V : list num) : list nat :=
  np_where ((fun v : num => nlt (np_abs (v - V_target)) tolerance) <$> V).

(** [a[idx]] for an array [idx] of indices. *)
Fixpoint take_indices (a : list num) (idx : list nat) : res (list num) :=
  match idx with
  | [] => Ok []
  | i :: idx' =>
      let* x := getitem a i in
      let* xs := take_indices a idx' in
      Ok (x :: xs)
  end.

(** The lines the search prints, with the values they format. *)
Inductive printed : Type :=
| SampleLine (t V d2V : num)
| NoValuesLine (target : R)
| ApproxLine (target : R) (d2V : num)
| NoD2VLine (target : R).

(** [for idx in indices: print(time[idx], V[idx], d2V_dt[idx])]. *)
Fixpoint print_samples (time V d2V_dt : list num) (idx : list nat)
  : res (list printed) :=
  match idx with
  | [] => Ok []
  | i :: idx' =>
      let* t := getitem time i in
      let* v := getitem V i in
      let* d := getitem d2V_dt i in
      let* out := print_samples time V d2V_dt idx' in
      Ok (SampleLine t v d :: out)
  end.

Definition target_report (time V d2V_dt : list num) : res (list printed) :=
  let indices_at_V_target := indices_at_V_target V in
  let* d2V_dt_at_V_target := take_indices d2V_dt indices_at_V_target in
  let* out1 :=
    if (0 <? length d2V_dt_at_V_target)%nat
    then print_samples time V d2V_dt indices_at_V_target
    else Ok [NoValuesLine V_target] in
  let* out2 :=
    if (0 <? length d2V_dt_at_V_target)%nat
    then let* d := getitem d2V_dt_at_V_target 0 in Ok [ApproxLine V_target d]
    else Ok [NoD2VLine V_target] in
  Ok (out1 ++ out2).

(** ** Limits of the voltage axis *)

Definition nmin : num -> num -> num := lift2 Rmin.
Definition nmax : num -> num -> num := lift2 Rmax.

(** [np.min] and [np.max] of a one-dimensional array: a nan element makes
    the result nan; [None] stands for the ValueError numpy raises on an empty
    array. *)
Definition np_min (a : list num) : option num :=
  match a with
  | [] => None
  | x :: a' => Some (foldl nmin x a')
  end.

Definition np_max (a : list num) : option num :=
  match a with
  | [] => None
  | x :: a' => Some (foldl nmax x a')
  end.

(** The argument of [plt.axis]:
    [[0, T, np.min((-70, np.min(V))), np.max((-57, np.max(V)))]]. *)
Definition axis_limits (T : R) (V : list num) : option (list num) :=
  match np_min V with
  | None => None
  | Some vmin =>
      match np_min [Fin (-70); vmin] with
      | None => None
      | Some lo =>
          match np_max V with
          | None => None
          | Some vmax =>
              match np_max [Fin (-57); vmax] with
              | None => None
              | Some hi => Some [Fin 0; Fin T; lo; hi]
              end
          end
      end
  end.

(** * Properties *)

(** ** Sample evaluations *)

Example np_where_sample :
  np_where [false; true; false; true] = [1%nat; 3%nat].
Proof. reflexivity. Qed.

Example np_diff_sample :
  np_diff [Fin 1; Fin 4; NaN; Fin 2] = [Fin (4 - 1); NaN; NaN].
Proof. reflexivity. Qed.

Example setitem_sample :
  setitem [Fin 0; Fin 0] 1 (Fin 7) = Ok [Fin 0; Fin 7]
  /\ setitem [] 0 (Fin 7) = Raise IndexError.
Proof. split; reflexivity. Qed.

Example first_event_sample :
  first_event [2%nat; 3%nat] [Fin 0; Fin 1; Fin 2; Fin 3] [Fin 5; Fin 6; Fin 7; Fin 8]
  = Ok (Some (Fin 2), Some (Fin 7))
  /\ first_event [] [Fin 0] [Fin 5] = Ok (None, None).
Proof. split; reflexivity. Qed.

Example betan_rest : betan (-65) = Fin 0.125.
Proof.
  unfold betan. cbn [nadd nmul lift2 np_exp lift1].
  replace (-0.0125 * (-65 + 65)) with 0 by lra. rewrite exp_0.
  f_equal. lra.
Qed.

Example window_mask_sample :
  window_mask inhibitory5 [Fin 1.5; Fin 2; Fin 2.5; NaN]
  = [false; false; true; false].
Proof.
  unfold window_mask, end_stimulus_time. cbn [StepStrength StepTime StepDuration StepWidth inhibitory5].
  destruct (Rlt_dec (-1) 0); [|lra].
  cbn. unfold R_ltb.
  destruct (Rlt_dec (0 + 0.5 + 3 * 0.5) 1.5); [lra|].
  destruct (Rlt_dec (0 + 0.5 + 3 * 0.5) 2); [lra|].
  destruct (Rlt_dec (0 + 0.5 + 3 * 0.5) 2.5); [|lra].
  reflexivity.
Qed.

(** ** Arithmetic of [num] *)

Lemma R_ltb_true (x y : R) : R_ltb x y = true <-> x < y.
Proof. unfold R_ltb. destruct (Rlt_dec x y); split; intros; try easy. Qed.

Lemma R_leb_true (x y : R) : R_leb x y = true <-> x <= y.
Proof. unfold R_leb. destruct (Rle_dec x y); split; intros; try easy. Qed.

Lemma ndiv_fin (x y : R) : y <> 0 -> (Fin x / Fin y)%num = Fin (x / y).
Proof. intros Hy. simpl. destruct (Req_dec_T y 0); [contradiction | reflexivity]. Qed.

Lemma ndiv_zero (a : num) : (a / Fin 0)%num = NaN.
Proof.
  destruct a as [x|]; simpl; [|reflexivity].
  destruct (Req_dec_T 0 0); [reflexivity | contradiction].
Qed.

Lemma nmul_comm (a b : num) : (a * b)%num = (b * a)%num.
Proof. destruct a, b; simpl; try reflexivity. f_equal. ring. Qed.

(** ** The rate functions at and away from their poles *)

(** [x / (1 - exp (-x))] has a vanishing divisor exactly at [x = 0]. *)
Lemma one_minus_exp_zero (x : R) : 1 - exp (- x) = 0 <-> x = 0.
Proof.
  split.
  - intros H. assert (He : exp (- x) = exp 0) by (rewrite exp_0; lra).
    apply exp_inv in He. lra.
  - intros ->. rewrite Ropp_0, exp_0. lra.
Qed.

Lemma alphan_pole_dividend (V : R) :
  1 - exp (-0.1 * (V + 55)) = 0 -> 0.01 * (V + 55) = 0.
Proof.
  intros H. replace (-0.1 * (V + 55)) with (- (0.1 * (V + 55))) in H by lra.
  apply (proj1 (one_minus_exp_zero _)) in H. lra.
Qed.

Lemma alpham_pole_dividend (V : R) :
  1 - exp (-0.1 * (V + 40)) = 0 -> 0.1 * (V + 40) = 0.
Proof.
  intros H. replace (-0.1 * (V + 40)) with (- (0.1 * (V + 40))) in H by lra.
  apply (proj1 (one_minus_exp_zero _)) in H. lra.
Qed.

Lemma alphan_regular (V : R) :
  V <> -55 ->
  alphan V = Fin (0.01 * (V + 55) / (1 - exp (-0.1 * (V + 55)))).
Proof.
  intros HV. unfold alphan. cbn [nadd nsub nmul lift2 np_exp lift1].
  apply ndiv_fin. intros H.
  replace (-0.1 * (V + 55)) with (- (0.1 * (V + 55))) in H by lra.
  apply (proj1 (one_minus_exp_zero _)) in H. lra.
Qed.

Lemma alpham_regular (V : R) :
  V <> -40 ->
  alpham V = Fin (0.1 * (V + 40) / (1 - exp (-0.1 * (V + 40)))).
Proof.
  intros HV. unfold alpham. cbn [nadd nsub nmul lift2 np_exp lift1].
  apply ndiv_fin. intros H.
  replace (-0.1 * (V + 40)) with (- (0.1 * (V + 40))) in H by lra.
  apply (proj1 (one_minus_exp_zero _)) in H. lra.
Qed.

Lemma alphan_pole : alphan (-55) = NaN.
Proof.
  unfold alphan. cbn [nadd nsub nmul lift2 np_exp lift1].
  replace (-0.1 * (-55 + 55)) with 0 by lra. rewrite exp_0.
  replace (1 - 1) with 0 by lra. apply ndiv_zero.
Qed.

Lemma alpham_pole : alpham (-40) = NaN.
Proof.
  unfold alpham. cbn [nadd nsub nmul lift2 np_exp lift1].
  replace (-0.1 * (-40 + 40)) with 0 by lra. rewrite exp_0.
  replace (1 - 1) with 0 by lra. apply ndiv_zero.
Qed.

(** C1 (evaluation at the failing inputs).  At the pole voltages the rate
    lambdas evaluate the 0/0 form as written: [alphan(-55.0)] and
    [alpham(-40.0)] are nan, not the limiting values 0.1 and 1; at every
    other voltage both are finite. *)
Theorem alphan_alpham_at_pole :
  alphan (-55) = NaN /\ alpham (-40) = NaN /\
  alphan (-55) <> Fin 0.1 /\ alpham (-40) <> Fin 1 /\
  (forall V : R, V <> -55 -> is_finite (alphan V)) /\
  (forall V : R, V <> -40 -> is_finite (alpham V)).
Proof.
  split; [exact alphan_pole|]. split; [exact alpham_pole|].
  split; [rewrite alphan_pole; discriminate|].
  split; [rewrite alpham_pole; discriminate|].
  split; intros V HV.
  - rewrite alphan_regular by exact HV. exact I.
  - rewrite alpham_regular by exact HV. exact I.
Qed.

(** ** Arrays, loops and the time grid *)

Lemma getitem_Some (a : list num) (i : nat) (x : num) :
  a !! i = Some x -> getitem a i = Ok x.
Proof. unfold getitem. intros ->. reflexivity. Qed.

Lemma getitem_ext (a b : list num) (i : nat) :
  a !! i = b !! i -> getitem a i = getitem b i.
Proof. unfold getitem. intros ->. reflexivity. Qed.

Lemma setitem_lt (a : list num) (i : nat) (v : num) :
  (i < length a)%nat -> setitem a i v = Ok (<[i:=v]> a).
Proof. unfold setitem. intros H. destruct (decide (i < length a)%nat); [reflexivity | contradiction]. Qed.

Lemma setitem_ge (a : list num) (i : nat) (v : num) :
  (length a <= i)%nat -> setitem a i v = Raise IndexError.
Proof. unfold setitem. intros H. destruct (decide (i < length a)%nat); [lia | reflexivity]. Qed.

Lemma for_in_app {S : Type} (body : S -> nat -> res S) (l1 l2 : list nat) (s : S) :
  for_in body (l1 ++ l2) s = (let* s' := for_in body l1 s in for_in body l2 s').
Proof.
  revert s. induction l1 as [|i l1 IH]; intros s; simpl; [reflexivity|].
  destruct (body s i) as [s'|e]; simpl; [apply IH | reflexivity].
Qed.

Lemma for_in_ext {S : Type} (f g : S -> nat -> res S) (l : list nat) (s : S) :
  (forall i s', In i l -> f s' i = g s' i) -> for_in f l s = for_in g l s.
Proof.
  revert s. induction l as [|i l IH]; intros s H; simpl; [reflexivity|].
  rewrite (H i s) by (left; reflexivity).
  destruct (g s i) as [s'|e]; simpl; [|reflexivity].
  apply IH. intros j s'' Hj. apply H. right. exact Hj.
Qed.

Lemma range_S (k : nat) : range (S k) = range k ++ [k].
Proof. unfold range. rewrite seq_S. reflexivity. Qed.

Lemma length_np_zeros_like (a : list num) : length (np_zeros_like a) = length a.
Proof. unfold np_zeros_like. apply length_fmap. Qed.

Lemma Rceil_spec (r : R) : IZR (Rceil r) - 1 < r <= IZR (Rceil r).
Proof.
  unfold Rceil. rewrite opp_IZR.
  destruct (base_Int_part (- r)) as [H1 H2]. lra.
Qed.

Lemma Rceil_unique (r : R) (z : Z) : IZR z - 1 < r <= IZR z -> Rceil r = z.
Proof.
  intros [H1 H2]. unfold Rceil.
  rewrite <- (Int_part_spec (- r) (- z)%Z); [lia|].
  rewrite opp_IZR. lra.
Qed.

Lemma Rceil_pos (r : R) : 0 < r <-> (0 < Rceil r)%Z.
Proof.
  destruct (Rceil_spec r) as [H1 H2]. split; intros H.
  - apply lt_IZR. lra.
  - assert (H3 : (1 <= Rceil r)%Z) by lia.
    apply IZR_le in H3. lra.
Qed.

Lemma np_arange_ok (stop step : R) :
  step <> 0 ->
  np_arange 0 stop step
  = Ok (fmap (fun i : nat => Fin (0 + INR i * step))
            (range (Z.to_nat (Rceil ((stop - 0) / step))))).
Proof.
  intros H. unfold np_arange. destruct (Req_dec_T step 0); [contradiction | reflexivity].
Qed.

Lemma grid_size_pos (c : config) : 0 < T c / dt c <-> (0 < grid_size c)%nat.
Proof.
  unfold grid_size. replace (T c - 0) with (T c) by lra.
  rewrite Rceil_pos. lia.
Qed.

Lemma grid_size_inhibitory5 : grid_size inhibitory5 = 5%nat.
Proof.
  unfold grid_size. rewrite (Rceil_unique _ 5); [reflexivity|]. cbn. lra.
Qed.

(** ** The forward Euler loop *)

Ltac read_item H := rewrite (getitem_Some _ _ _ H); cbn [bind].
Ltac write_item := rewrite setitem_lt by lia; cbn [bind].

Lemma euler_body_inv (dt V0 : R) (N : nat) (Ix : list num) (k : nat)
  (s : St.state) :
  euler_inv dt V0 N Ix k s ->
  (k + 1 < N)%nat -> (k < length Ix)%nat ->
  exists s', euler_body dt Ix s k = Ok s' /\ euler_inv dt V0 N Ix (S k) s'.
Proof.
  intros [HV Hn Hm Hh HV0 Hn0 Hm0 Hh0 Hst] HkN HkIx.
  destruct s as [V n m h]. cbn [St.V St.n St.m St.h] in *.
  destruct (lookup_lt_is_Some_2 V k) as [Vi HVi]; [lia|].
  destruct (lookup_lt_is_Some_2 n k) as [ni Hni]; [lia|].
  destruct (lookup_lt_is_Some_2 m k) as [mi Hmi]; [lia|].
  destruct (lookup_lt_is_Some_2 h k) as [hi Hhi]; [lia|].
  destruct (lookup_lt_is_Some_2 Ix k) as [Ixi HIxi]; [lia|].
  assert (Hne : (k + 1)%nat <> k) by lia.
  eexists. split.
  - assert (Hni' : <[(k + 1)%nat:=(ni + dt * ((1 - ni) * alphan Vi - ni * betan Vi))%num]> n !! k = Some ni)
      by (rewrite list_lookup_insert_ne by exact Hne; exact Hni).
    assert (Hmi' : <[(k + 1)%nat:=(mi + dt * ((1 - mi) * alpham Vi - mi * betam Vi))%num]> m !! k = Some mi)
      by (rewrite list_lookup_insert_ne by exact Hne; exact Hmi).
    assert (Hhi' : <[(k + 1)%nat:=(hi + dt * ((1 - hi) * alphah Vi - hi * betah Vi))%num]> h !! k = Some hi)
      by (rewrite list_lookup_insert_ne by exact Hne; exact Hhi).
    unfold euler_body.
    read_item Hni; read_item HVi; write_item.
    read_item Hmi; write_item.
    read_item Hhi; write_item.
    read_item Hni'; read_item Hmi'; read_item Hhi'; read_item HIxi; write_item.
    reflexivity.
  - constructor; cbn [St.V St.n St.m St.h].
    1-4: rewrite length_insert; assumption.
    1-4: rewrite list_lookup_insert_ne by lia; assumption.
    intros j Hj. destruct (decide (j = k)) as [->|Hjk].
    + exists Vi, ni, mi, hi, Ixi. cbn [St.V St.n St.m St.h].
      rewrite !(list_lookup_insert_ne _ (k + 1) k) by exact Hne.
      rewrite !list_lookup_insert_eq by lia.
      repeat split; assumption.
    + destruct (Hst j) as (Vj & nj & mj & hj & Ixj & H1 & H2 & H3 & H4 & H5 & H6 & H7 & H8 & H9); [lia|].
      exists Vj, nj, mj, hj, Ixj. cbn [St.V St.n St.m St.h] in *.
      rewrite !(list_lookup_insert_ne _ (k + 1) j) by lia.
      rewrite !(list_lookup_insert_ne _ (k + 1) (j + 1)) by lia.
      repeat split; assumption.
Qed.

Lemma euler_loop_inv (dt V0 : R) (N : nat) (Ix : list num) (s0 : St.state)
  (k : nat) :
  euler_inv dt V0 N Ix 0 s0 ->
  (k + 1 <= N)%nat -> (k <= length Ix)%nat ->
  exists s, for_in (euler_body dt Ix) (range k) s0 = Ok s
            /\ euler_inv dt V0 N Ix k s.
Proof.
  intros H0. induction k as [|k IH]; intros HkN HkIx.
  - exists s0. split; [reflexivity | exact H0].
  - destruct IH as (s & Hs & Hinv); [lia | lia |].
    destruct (euler_body_inv dt V0 N Ix k s Hinv) as (s' & Hs' & Hinv'); [lia | lia |].
    exists s'. split; [|exact Hinv'].
    rewrite range_S, for_in_app, Hs. cbn [bind for_in]. rewrite Hs'. reflexivity.
Qed.

Lemma integrate_inv (dt V0 : R) (time Ix : list num) :
  (0 < length time)%nat -> (length time - 1 <= length Ix)%nat ->
  exists s, integrate dt V0 time Ix = Ok s
            /\ euler_inv dt V0 (length time) Ix (length time - 1) s.
Proof.
  intros HN HIx. unfold integrate.
  rewrite !setitem_lt by (rewrite length_np_zeros_like; exact HN). cbn [bind].
  apply euler_loop_inv; [|lia|exact HIx].
  constructor; cbn [St.V St.n St.m St.h].
  1-4: rewrite length_insert; apply length_np_zeros_like.
  1-4: apply list_lookup_insert_eq; rewrite length_np_zeros_like; exact HN.
  intros j Hj. lia.
Qed.

Lemma integrate_empty (dt V0 : R) (Ix : list num) :
  integrate dt V0 [] Ix = Raise IndexError.
Proof. reflexivity. Qed.

(** ** Finite differences *)

Lemma length_np_diff (a : list num) : length (np_diff a) = (length a - 1)%nat.
Proof.
  unfold np_diff. rewrite length_zip_with. destruct a; cbn [tail length]; lia.
Qed.

Lemma lookup_np_diff (a : list num) (i : nat) (x y : num) :
  a !! i = Some x -> a !! (i + 1)%nat = Some y ->
  np_diff a !! i = Some (y - x)%num.
Proof.
  intros Hx Hy. unfold np_diff. rewrite lookup_zip_with, Hx. cbn.
  rewrite lookup_tail. replace (S i) with (i + 1)%nat by lia.
  rewrite Hy. reflexivity.
Qed.

Lemma length_derivative (dt : R) (a : list num) :
  (0 < length a)%nat -> length (derivative dt a) = length a.
Proof.
  intros H. unfold derivative, np_append, vdivs.
  rewrite length_app, length_fmap, length_np_diff. cbn. lia.
Qed.

Lemma lookup_derivative (dt : R) (a : list num) (i : nat) (x y : num) :
  a !! i = Some x -> a !! (i + 1)%nat = Some y ->
  derivative dt a !! i = Some ((y - x) / dt)%num.
Proof.
  intros Hx Hy. unfold derivative, np_append, vdivs.
  rewrite lookup_app_l.
  - rewrite list_lookup_fmap, (lookup_np_diff a i x y Hx Hy). reflexivity.
  - rewrite length_fmap, length_np_diff.
    apply lookup_lt_Some in Hy. lia.
Qed.

Lemma lookup_derivative_last (dt : R) (a : list num) :
  derivative dt a !! (length a - 1)%nat = Some (Fin 0).
Proof.
  unfold derivative, np_append, vdivs.
  rewrite lookup_app_r; rewrite length_fmap, length_np_diff; [|lia].
  replace (length a - 1 - (length a - 1))%nat with 0%nat by lia. reflexivity.
Qed.

(** ** [np.where] and the first event *)

Lemma np_where_from_head (k : nat) (mask : list bool) (i0 : nat) (rest : list nat) :
  np_where_from k mask = i0 :: rest ->
  (k <= i0)%nat /\ mask !! (i0 - k)%nat = Some true
  /\ forall j : nat, (j < i0 - k)%nat -> mask !! j = Some false.
Proof.
  revert k. induction mask as [|b mask IH]; intros k H; [discriminate|].
  cbn [np_where_from] in H. destruct b.
  - injection H as <- _. replace (k - k)%nat with 0%nat by lia.
    repeat split; [lia | intros j Hj; lia].
  - apply IH in H as (Hk & Hi0 & Hlt).
    assert (Hs : (i0 - k)%nat = S (i0 - S k)) by lia.
    rewrite Hs. repeat split; [lia | exact Hi0 |].
    intros [|j] Hj; [reflexivity|]. cbn. apply Hlt. lia.
Qed.

Lemma np_where_from_nil (k : nat) (mask : list bool) :
  np_where_from k mask = [] ->
  forall j : nat, (j < length mask)%nat -> mask !! j = Some false.
Proof.
  revert k. induction mask as [|b mask IH]; intros k H j Hj; [cbn in Hj; lia|].
  cbn [np_where_from] in H. destruct b; [discriminate|].
  destruct j as [|j]; [reflexivity|]. cbn. apply (IH (S k) H). cbn in Hj. lia.
Qed.

(** The head of [np.where(mask)[0]] is the first index at which the mask
    holds. *)
Lemma np_where_head (mask : list bool) (i0 : nat) (rest : list nat) :
  np_where mask = i0 :: rest ->
  mask !! i0 = Some true /\ forall j : nat, (j < i0)%nat -> mask !! j = Some false.
Proof.
  intros H. apply np_where_from_head in H as (_ & H1 & H2).
  replace (i0 - 0)%nat with i0 in * by lia. split; assumption.
Qed.

Lemma np_where_nil (mask : list bool) :
  np_where mask = [] ->
  forall j : nat, (j < length mask)%nat -> mask !! j = Some false.
Proof. apply np_where_from_nil. Qed.

(** Conversely, a first index at which the mask holds is the head. *)
Lemma np_where_first (mask : list bool) (i0 : nat) :
  mask !! i0 = Some true ->
  (forall j : nat, (j < i0)%nat -> mask !! j = Some false) ->
  exists rest, np_where mask = i0 :: rest.
Proof.
  intros Hi0 Hlt. destruct (np_where mask) as [|i1 rest] eqn:E.
  - pose proof (np_where_nil mask E i0 (lookup_lt_Some _ _ _ Hi0)). congruence.
  - apply np_where_head in E as [H1 H2]. exists rest. f_equal.
    destruct (Nat.lt_trichotomy i1 i0) as [H|[H|H]]; [|exact H|].
    + specialize (Hlt i1 H). congruence.
    + specialize (H2 i0 H). congruence.
Qed.

Lemma np_where_none (mask : list bool) :
  (forall j : nat, mask !! j <> Some true) -> np_where mask = [].
Proof.
  intros H. destruct (np_where mask) as [|i0 rest] eqn:E; [reflexivity|].
  apply np_where_head in E as [H1 _]. destruct (H i0 H1).
Qed.

Lemma first_event_found (idx : list nat) (time V : list num) (i0 : nat)
  (rest : list nat) (t v : num) :
  idx = i0 :: rest -> time !! i0 = Some t -> V !! i0 = Some v ->
  first_event idx time V = Ok (Some t, Some v).
Proof.
  intros -> Ht Hv. cbn [first_event].
  rewrite (getitem_Some _ _ _ Ht). cbn [bind].
  rewrite (getitem_Some _ _ _ Hv). reflexivity.
Qed.

(** ** The whole script *)

Lemma length_grid (c : config) : length (grid c) = grid_size c.
Proof. unfold grid, range. rewrite length_fmap, length_seq. reflexivity. Qed.

Lemma lookup_grid (c : config) (i : nat) :
  (i < grid_size c)%nat -> grid c !! i = Some (Fin (INR i * dt c)).
Proof.
  intros H. unfold grid, range. rewrite list_lookup_fmap, lookup_seq_lt by exact H.
  cbn. do 2 f_equal. lra.
Qed.

Lemma np_arange_grid (c : config) :
  dt c <> 0 -> np_arange 0 (T c) (dt c) = Ok (grid c).
Proof. intros H. rewrite np_arange_ok by exact H. reflexivity. Qed.

Lemma length_stimulus (ndtr : R -> R) (c : config) (time : list num) :
  length (stimulus ndtr c time) = length time.
Proof.
  unfold stimulus, vadd, smul, vsub, norm_cdf.
  rewrite length_zip_with, length_np_zeros_like, length_fmap, length_zip_with,
    !length_fmap. lia.
Qed.

Lemma first_event_ok (idx : list nat) (time V : list num) :
  (forall i0 rest, idx = i0 :: rest -> (i0 < length time)%nat /\ (i0 < length V)%nat) ->
  first_event idx time V = Ok (event_of idx time, event_of idx V).
Proof.
  intros H. destruct idx as [|i0 rest]; [reflexivity|].
  destruct (H i0 rest eq_refl) as [Ht Hv].
  destruct (lookup_lt_is_Some_2 time i0 Ht) as [t Ht'].
  destruct (lookup_lt_is_Some_2 V i0 Hv) as [v Hv'].
  cbn [event_of]. rewrite Ht', Hv'.
  eapply first_event_found; [reflexivity | exact Ht' | exact Hv'].
Qed.

Lemma np_where_head_lt (mask : list bool) (i0 : nat) (rest : list nat) :
  np_where mask = i0 :: rest -> (i0 < length mask)%nat.
Proof.
  intros H. apply np_where_head in H as [H _]. apply lookup_lt_Some in H. exact H.
Qed.

Lemma length_window_mask (c : config) (time : list num) :
  length (window_mask c time) = length time.
Proof.
  unfold window_mask, vand. destruct (Rlt_dec (StepStrength c) 0).
  - apply length_fmap.
  - rewrite length_zip_with, !length_fmap. lia.
Qed.

Lemma length_band (lo hi : R) (d : list num) : length (band lo hi d) = length d.
Proof. unfold band, vand. rewrite length_zip_with, !length_fmap. lia. Qed.

Lemma run_ok (ndtr : R -> R) (c : config) :
  dt c <> 0 -> 0 < T c / dt c ->
  exists s,
    integrate (dt c) (V0 c) (grid c) (stimulus ndtr c (grid c)) = Ok s
    /\ euler_inv (dt c) (V0 c) (grid_size c) (stimulus ndtr c (grid c))
         (grid_size c - 1) s
    /\ run ndtr c = Ok (output_of c (stimulus ndtr c (grid c)) s).
Proof.
  intros Hdt HT. apply grid_size_pos in HT.
  destruct (integrate_inv (dt c) (V0 c) (grid c) (stimulus ndtr c (grid c)))
    as (s & Hs & Hinv).
  { rewrite length_grid. exact HT. }
  { rewrite length_stimulus. lia. }
  rewrite length_grid in Hinv.
  exists s. split; [exact Hs|]. split; [exact Hinv|].
  unfold run. rewrite np_arange_grid by exact Hdt. cbn [bind].
  rewrite Hs. cbn [bind].
  pose proof (inv_len_V _ _ _ _ _ _ Hinv) as HlenV.
  assert (Hd1 : length (derivative (dt c) (St.V s)) = grid_size c).
  { rewrite length_derivative; lia. }
  assert (Hd2 : length (derivative (dt c) (derivative (dt c) (St.V s))) = grid_size c).
  { rewrite length_derivative; lia. }
  rewrite first_event_ok.
  2:{ intros i0 rest H. apply np_where_head_lt in H.
      rewrite length_fmap, Hd1 in H. rewrite length_grid. lia. }
  cbn [bind]. rewrite first_event_ok.
  2:{ intros i0 rest H. apply np_where_head_lt in H.
      unfold vand in H. rewrite length_zip_with, length_band, length_window_mask,
        Hd2, length_grid in H. rewrite length_grid. lia. }
  reflexivity.
Qed.

Lemma run_zero_step (ndtr : R -> R) (c : config) :
  dt c = 0 -> run ndtr c = Raise ZeroDivisionError.
Proof.
  intros H. unfold run, np_arange. rewrite H.
  destruct (Req_dec_T 0 0); [reflexivity | contradiction].
Qed.

Lemma grid_empty (c : config) : T c / dt c <= 0 -> grid c = [].
Proof.
  intros H. unfold grid. replace (grid_size c) with 0%nat; [reflexivity|].
  destruct (Nat.eq_dec (grid_size c) 0%nat) as [E|E]; [congruence|].
  assert (0 < T c / dt c) by (apply grid_size_pos; lia). lra.
Qed.

Lemma run_empty_grid (ndtr : R -> R) (c : config) :
  dt c <> 0 -> T c / dt c <= 0 -> run ndtr c = Raise IndexError.
Proof.
  intros Hdt HT. unfold run. rewrite np_arange_grid by exact Hdt. cbn [bind].
  rewrite (grid_empty c HT). reflexivity.
Qed.

Lemma Iion_expanded (n m h V : num) :
  Iion n m h V
  = (- gL * (V - EL) - gK * n ** 4 * (V - EK) - gNa * m ** 3 * h * (V - ENa))%num.
Proof.
  unfold Iion, IL, IK, INa. destruct n, m, h, V; cbn; try reflexivity.
  f_equal. ring.
Qed.

(** C9.  For [dt > 0] and [T > 0] the grid [time] of a run is the array built
    by [np.arange(0, T, dt)], unchanged; it has exactly [ceil(T/dt)] samples,
    [time[i] = i*dt], it starts at 0 and is strictly increasing. *)
Theorem time_grid (ndtr : R -> R) (c : config) :
  0 < dt c -> 0 < T c ->
  exists o, run ndtr c = Ok o
    /\ np_arange 0 (T c) (dt c) = Ok (Out.time o)
    /\ Z.of_nat (length (Out.time o)) = Rceil (T c / dt c)
    /\ (forall i : nat, (i < length (Out.time o))%nat ->
          Out.time o !! i = Some (Fin (INR i * dt c)))
    /\ Out.time o !! 0%nat = Some (Fin 0)
    /\ (forall (i j : nat) (ti tj : R), (i < j)%nat ->
          Out.time o !! i = Some (Fin ti) -> Out.time o !! j = Some (Fin tj) ->
          ti < tj).
Proof.
  intros Hdt HT.
  assert (Hq : 0 < T c / dt c) by (apply Rdiv_lt_0_compat; assumption).
  destruct (run_ok ndtr c) as (s & _ & _ & Hrun); [lra | exact Hq |].
  exists (output_of c (stimulus ndtr c (grid c)) s).
  split; [exact Hrun|]. cbn [output_of Out.time]. rewrite length_grid.
  split; [apply np_arange_grid; lra|].
  split.
  { unfold grid_size. replace (T c - 0) with (T c) by lra.
    apply Z2Nat.id. apply Rceil_pos in Hq. lia. }
  split; [intros i Hi; apply lookup_grid; exact Hi|].
  split.
  { rewrite lookup_grid by (apply grid_size_pos; exact Hq).
    cbn. do 2 f_equal. lra. }
  intros i j ti tj Hij Hi Hj.
  pose proof (lookup_lt_Some _ _ _ Hi) as Hi'.
  pose proof (lookup_lt_Some _ _ _ Hj) as Hj'.
  rewrite length_grid in Hi', Hj'.
  rewrite lookup_grid in Hi by exact Hi'. rewrite lookup_grid in Hj by exact Hj'.
  injection Hi as <-. injection Hj as <-.
  apply Rmult_lt_compat_r; [exact Hdt|]. apply lt_INR. exact Hij.
Qed.

Lemma time_grid_witness :
  exists o, run step_cdf reference = Ok o
    /\ Z.of_nat (length (Out.time o)) = Rceil (1000 / 0.001).
Proof.
  destruct (time_grid step_cdf reference) as (o & Ho & _ & Hlen & _).
  - cbn. lra.
  - cbn. lra.
  - exists o. split; [exact Ho | exact Hlen].
Defined.

Lemma lookup_total_Some (a : list num) (i : nat) (x : num) :
  a !! i = Some x -> a !!! i = x.
Proof. apply list_lookup_total_correct. Qed.

Lemma lookup_total_lt (a : list num) (i : nat) :
  (i < length a)%nat -> a !! i = Some (a !!! i).
Proof. apply list_lookup_lookup_total_lt. Qed.

(** C7.  Both derivative traces have the length [N] of the grid;
    [dV_dt[i] = (V[i+1] - V[i])/dt] and
    [d2V_dt[i] = (dV_dt[i+1] - dV_dt[i])/dt] for [i < N-1], and the last
    element of each is 0. *)
Theorem derivative_traces (ndtr : R -> R) (c : config) :
  dt c <> 0 -> 0 < T c / dt c ->
  exists o, run ndtr c = Ok o
    /\ length (Out.V o) = length (Out.time o)
    /\ length (Out.dV_dt o) = length (Out.time o)
    /\ length (Out.d2V_dt o) = length (Out.time o)
    /\ (forall i : nat, (i < length (Out.time o) - 1)%nat ->
          Out.dV_dt o !!! i
          = ((Out.V o !!! (i + 1)%nat - Out.V o !!! i) / dt c)%num)
    /\ Out.dV_dt o !!! (length (Out.time o) - 1)%nat = Fin 0
    /\ (forall i : nat, (i < length (Out.time o) - 1)%nat ->
          Out.d2V_dt o !!! i
          = ((Out.dV_dt o !!! (i + 1)%nat - Out.dV_dt o !!! i) / dt c)%num)
    /\ Out.d2V_dt o !!! (length (Out.time o) - 1)%nat = Fin 0.
Proof.
  intros Hdt HT.
  destruct (run_ok ndtr c Hdt HT) as (s & _ & Hinv & Hrun).
  apply grid_size_pos in HT.
  exists (output_of c (stimulus ndtr c (grid c)) s).
  split; [exact Hrun|].
  cbn [output_of Out.time Out.V Out.dV_dt Out.d2V_dt]. rewrite length_grid.
  pose proof (inv_len_V _ _ _ _ _ _ Hinv) as HlenV.
  assert (Hd1 : length (derivative (dt c) (St.V s)) = grid_size c)
    by (rewrite length_derivative; lia).
  assert (Hd2 : length (derivative (dt c) (derivative (dt c) (St.V s))) = grid_size c)
    by (rewrite length_derivative; lia).
  repeat split; try assumption.
  - intros i Hi. apply lookup_total_Some.
    apply lookup_derivative; apply lookup_total_lt; lia.
  - apply lookup_total_Some. rewrite <- HlenV. apply lookup_derivative_last.
  - intros i Hi. apply lookup_total_Some.
    apply lookup_derivative; apply lookup_total_lt; lia.
  - apply lookup_total_Some. rewrite <- Hd1. apply lookup_derivative_last.
Qed.

Lemma derivative_traces_witness :
  exists o, run step_cdf inhibitory5 = Ok o
    /\ Out.dV_dt o !!! (length (Out.time o) - 1)%nat = Fin 0
    /\ Out.d2V_dt o !!! (length (Out.time o) - 1)%nat = Fin 0.
Proof.
  destruct (derivative_traces step_cdf inhibitory5)
    as (o & Ho & _ & _ & _ & _ & Hd1 & _ & Hd2).
  - cbn. lra.
  - cbn. lra.
  - exists o. split; [exact Ho|]. split; [exact Hd1 | exact Hd2].
Defined.

(** ** Steady states *)

Lemma exp_neg_lt_1 (x : R) : 0 < x -> exp (- x) < 1.
Proof. intros H. rewrite <- exp_0. apply exp_increasing. lra. Qed.

Lemma exp_neg_gt_1 (x : R) : x < 0 -> 1 < exp (- x).
Proof. intros H. rewrite <- exp_0. apply exp_increasing. lra. Qed.

Lemma ratio_pos (k x : R) :
  0 < k -> x <> 0 -> 0 < k * x / (1 - exp (- x)).
Proof.
  intros Hk Hx. destruct (Rlt_le_dec 0 x) as [Hpos|Hneg].
  - pose proof (exp_neg_lt_1 x Hpos). apply Rdiv_lt_0_compat; nra.
  - assert (Hlt : x < 0) by lra. pose proof (exp_neg_gt_1 x Hlt).
    replace (k * x / (1 - exp (- x))) with (k * - x / (exp (- x) - 1))
      by (field; lra).
    apply Rdiv_lt_0_compat; nra.
Qed.

Lemma alphan_pos (V : R) :
  V <> -55 -> exists a : R, alphan V = Fin a /\ 0 < a.
Proof.
  intros HV. eexists. split; [apply alphan_regular; exact HV|].
  replace (0.01 * (V + 55)) with (0.1 * (0.1 * (V + 55))) by lra.
  replace (-0.1 * (V + 55)) with (- (0.1 * (V + 55))) by lra.
  apply ratio_pos; lra.
Qed.

Lemma alpham_pos (V : R) :
  V <> -40 -> exists a : R, alpham V = Fin a /\ 0 < a.
Proof.
  intros HV. eexists. split; [apply alpham_regular; exact HV|].
  replace (0.1 * (V + 40)) with (1 * (0.1 * (V + 40))) by lra.
  replace (-0.1 * (V + 40)) with (- (0.1 * (V + 40))) by lra.
  apply ratio_pos; lra.
Qed.

Lemma betan_pos (V : R) : exists b : R, betan V = Fin b /\ 0 < b.
Proof.
  eexists. split; [reflexivity|].
  pose proof (exp_pos (-0.0125 * (V + 65))). lra.
Qed.

Lemma betam_pos (V : R) : exists b : R, betam V = Fin b /\ 0 < b.
Proof.
  eexists. split; [reflexivity|].
  pose proof (exp_pos (-0.0556 * (V + 65))). lra.
Qed.

Lemma alphah_pos (V : R) : exists a : R, alphah V = Fin a /\ 0 < a.
Proof.
  eexists. split; [reflexivity|].
  pose proof (exp_pos (-0.05 * (V + 65))). lra.
Qed.

Lemma betah_pos (V : R) : exists b : R, betah V = Fin b /\ 0 < b.
Proof.
  pose proof (exp_pos (-0.1 * (V + 35))) as He.
  eexists. split.
  - unfold betah. cbn [nadd nmul lift2 np_exp lift1]. apply ndiv_fin. lra.
  - apply Rdiv_lt_0_compat; lra.
Qed.

(** With finite rates of positive sum, [alpha/(alpha + beta)] is a zero of
    the gating kinetics [(1 - x)*alpha - x*beta]. *)
Lemma steady_state_fixed (alpha beta : num) (a b : R) :
  alpha = Fin a -> beta = Fin b -> 0 < a -> 0 < b ->
  ((1 - alpha / (alpha + beta)) * alpha - alpha / (alpha + beta) * beta)%num
  = Fin 0.
Proof.
  intros -> -> Ha Hb. cbn [nadd lift2]. rewrite ndiv_fin by lra.
  cbn. f_equal. field. lra.
Qed.

(** C5.  Index 0 of the traces of a run holds the initial condition:
    [V[0] = V0] and each gate starts at [alpha/(alpha + beta)] evaluated at
    [V0]; away from the pole of its rate function this value is a zero of the
    gate's kinetics at [V0]. *)
Theorem initial_condition (ndtr : R -> R) (c : config) :
  dt c <> 0 -> 0 < T c / dt c ->
  exists o, run ndtr c = Ok o
    /\ Out.V o !!! 0%nat = Fin (V0 c)
    /\ Out.n o !!! 0%nat
       = (alphan (V0 c) / (alphan (V0 c) + betan (V0 c)))%num
    /\ Out.m o !!! 0%nat
       = (alpham (V0 c) / (alpham (V0 c) + betam (V0 c)))%num
    /\ Out.h o !!! 0%nat
       = (alphah (V0 c) / (alphah (V0 c) + betah (V0 c)))%num
    /\ (V0 c <> -55 ->
        ((1 - Out.n o !!! 0%nat) * alphan (V0 c)
         - Out.n o !!! 0%nat * betan (V0 c))%num = Fin 0)
    /\ (V0 c <> -40 ->
        ((1 - Out.m o !!! 0%nat) * alpham (V0 c)
         - Out.m o !!! 0%nat * betam (V0 c))%num = Fin 0)
    /\ ((1 - Out.h o !!! 0%nat) * alphah (V0 c)
        - Out.h o !!! 0%nat * betah (V0 c))%num = Fin 0.
Proof.
  intros Hdt HT.
  destruct (run_ok ndtr c Hdt HT) as (s & _ & Hinv & Hrun).
  exists (output_of c (stimulus ndtr c (grid c)) s).
  split; [exact Hrun|]. cbn [output_of Out.V Out.n Out.m Out.h].
  rewrite (lookup_total_Some _ _ _ (inv_V0 _ _ _ _ _ _ Hinv)).
  rewrite (lookup_total_Some _ _ _ (inv_n0 _ _ _ _ _ _ Hinv)).
  rewrite (lookup_total_Some _ _ _ (inv_m0 _ _ _ _ _ _ Hinv)).
  rewrite (lookup_total_Some _ _ _ (inv_h0 _ _ _ _ _ _ Hinv)).
  repeat split.
  - intros HV. destruct (alphan_pos (V0 c) HV) as (a & Ha & Hpa).
    destruct (betan_pos (V0 c)) as (b & Hb & Hpb).
    exact (steady_state_fixed _ _ a b Ha Hb Hpa Hpb).
  - intros HV. destruct (alpham_pos (V0 c) HV) as (a & Ha & Hpa).
    destruct (betam_pos (V0 c)) as (b & Hb & Hpb).
    exact (steady_state_fixed _ _ a b Ha Hb Hpa Hpb).
  - destruct (alphah_pos (V0 c)) as (a & Ha & Hpa).
    destruct (betah_pos (V0 c)) as (b & Hb & Hpb).
    exact (steady_state_fixed _ _ a b Ha Hb Hpa Hpb).
Qed.

Lemma initial_condition_witness :
  exists o, run step_cdf reference = Ok o /\ Out.V o !!! 0%nat = Fin (-65.0).
Proof.
  destruct (initial_condition step_cdf reference) as (o & Ho & HV & _).
  - cbn. lra.
  - cbn. lra.
  - exists o. split; [exact Ho | exact HV].
Defined.

(** A run started at the pole of [alphan] has nan as its first [n]
    sample. *)
Lemma pole_initial_condition (ndtr : R -> R) (c : config) :
  dt c <> 0 -> 0 < T c / dt c -> V0 c = -55 ->
  exists o, run ndtr c = Ok o /\ Out.n o !! 0%nat = Some NaN.
Proof.
  intros Hdt HT HV.
  destruct (run_ok ndtr c Hdt HT) as (s & _ & Hinv & Hrun).
  exists (output_of c (stimulus ndtr c (grid c)) s).
  split; [exact Hrun|]. cbn [output_of Out.n].
  rewrite (inv_n0 _ _ _ _ _ _ Hinv), HV. unfold ninfty.
  rewrite alphan_pole. reflexivity.
Qed.

(** C2.  The traces of a run start from the initial condition and, for every
    [i <= N-2], satisfy the forward Euler recurrence: the gates at [i+1] from
    the gates and the voltage at [i], and the voltage at [i+1] from the
    voltage, the gates and the stimulus at [i]. *)
Theorem euler_recurrence (ndtr : R -> R) (c : config) :
  dt c <> 0 -> 0 < T c / dt c ->
  exists o, run ndtr c = Ok o
    /\ length (Out.V o) = length (Out.time o)
    /\ length (Out.n o) = length (Out.time o)
    /\ length (Out.m o) = length (Out.time o)
    /\ length (Out.h o) = length (Out.time o)
    /\ length (Out.Ix o) = length (Out.time o)
    /\ Out.V o !! 0%nat = Some (Fin (V0 c))
    /\ Out.n o !! 0%nat = Some (ninfty (V0 c))
    /\ Out.m o !! 0%nat = Some (minfty (V0 c))
    /\ Out.h o !! 0%nat = Some (hinfty (V0 c))
    /\ forall i : nat, (i + 2 <= length (Out.time o))%nat ->
         let V := Out.V o !!! i in
         let n := Out.n o !!! i in
         let m := Out.m o !!! i in
         let h := Out.h o !!! i in
         let I_ion :=
           (- gL * (V - EL) - gK * n ** 4 * (V - EK)
            - gNa * m ** 3 * h * (V - ENa))%num in
         Out.n o !!! (i + 1)%nat
         = (n + dt c * (alphan V * (1 - n) - betan V * n))%num
         /\ Out.m o !!! (i + 1)%nat
            = (m + dt c * (alpham V * (1 - m) - betam V * m))%num
         /\ Out.h o !!! (i + 1)%nat
            = (h + dt c * (alphah V * (1 - h) - betah V * h))%num
         /\ Out.V o !!! (i + 1)%nat
            = (V + dt c * (I_ion + Out.Ix o !!! i) / Cm)%num.
Proof.
  intros Hdt HT.
  destruct (run_ok ndtr c Hdt HT) as (s & _ & Hinv & Hrun).
  exists (output_of c (stimulus ndtr c (grid c)) s).
  split; [exact Hrun|].
  cbn [output_of Out.time Out.V Out.n Out.m Out.h Out.Ix].
  rewrite length_grid, length_stimulus, length_grid.
  destruct Hinv as [HV Hn Hm Hh HV0 Hn0 Hm0 Hh0 Hst].
  repeat (split; [assumption || reflexivity|]).
  intros i Hi.
  destruct (Hst i) as (Vi & ni & mi & hi & Ixi & H1 & H2 & H3 & H4 & H5 & H6 & H7 & H8 & H9);
    [lia|].
  cbv zeta.
  rewrite (lookup_total_Some _ _ _ H1), (lookup_total_Some _ _ _ H2),
    (lookup_total_Some _ _ _ H3), (lookup_total_Some _ _ _ H4),
    (lookup_total_Some _ _ _ H5), (lookup_total_Some _ _ _ H6),
    (lookup_total_Some _ _ _ H7), (lookup_total_Some _ _ _ H8),
    (lookup_total_Some _ _ _ H9).
  rewrite <- Iion_expanded.
  rewrite (nmul_comm (alphan Vi)), (nmul_comm (betan Vi)),
    (nmul_comm (alpham Vi)), (nmul_comm (betam Vi)),
    (nmul_comm (alphah Vi)), (nmul_comm (betah Vi)).
  repeat split.
Qed.

Lemma euler_recurrence_witness :
  exists o, run step_cdf inhibitory5 = Ok o
    /\ length (Out.V o) = length (Out.time o)
    /\ Out.V o !! 0%nat = Some (Fin (-65.0))
    /\ Out.V o !!! 1%nat
       = (Fin (-65.0)
          + 0.5 * (Iion (Out.n o !!! 0%nat) (Out.m o !!! 0%nat)
                     (Out.h o !!! 0%nat) (-65.0)
                   + Out.Ix o !!! 0%nat) / Cm)%num.
Proof.
  destruct (euler_recurrence step_cdf inhibitory5)
    as (o & Ho & HV & _ & _ & _ & _ & HV0 & _ & _ & _ & Hstep).
  - cbn. lra.
  - cbn. lra.
  - exists o. split; [exact Ho|]. split; [exact HV|]. split; [exact HV0|].
    assert (HN : (0 + 2 <= length (Out.time o))%nat).
    { revert Ho. unfold run. rewrite np_arange_grid by (cbn; lra). cbn [bind].
      destruct (integrate _ _ _ _) as [s|e]; [|discriminate]. cbn [bind].
      destruct (first_event _ _ _) as [ev|e]; [|discriminate]. cbn [bind].
      destruct (first_event _ _ _) as [ev2|e]; [|discriminate]. cbn [bind].
      intros [= <-]. cbn [Out.time].
      rewrite length_grid, grid_size_inhibitory5. lia. }
    destruct (Hstep 0%nat HN) as (_ & _ & _ & H). cbv zeta in H.
    rewrite (lookup_total_Some _ _ _ HV0) in H.
    rewrite <- Iion_expanded in H. exact H.
Defined.

Lemma integrate_stimulus_ext (dt V0 : R) (time Ix Ix' : list num) :
  (forall i : nat, (i + 1 < length time)%nat -> Ix !! i = Ix' !! i) ->
  integrate dt V0 time Ix = integrate dt V0 time Ix'.
Proof.
  intros H. unfold integrate.
  destruct (setitem (np_zeros_like time) 0 V0) as [V|e]; [|reflexivity].
  cbn [bind].
  destruct (setitem (np_zeros_like time) 0 (ninfty V0)) as [n|e]; [|reflexivity].
  destruct (setitem (np_zeros_like time) 0 (minfty V0)) as [m|e]; [|reflexivity].
  destruct (setitem (np_zeros_like time) 0 (hinfty V0)) as [h|e]; [|reflexivity].
  cbn [bind]. apply for_in_ext. intros i [V' n' m' h'] Hi.
  apply in_seq in Hi. unfold euler_body.
  rewrite (getitem_ext Ix Ix' i) by (apply H; lia). reflexivity.
Qed.

(** C10.  The loop reads the stimulus at the indices [0 .. N-2] only: on a
    grid of [N >= 1] samples, two stimulus arrays of length [N] that agree
    there give the same traces [V, n, m, h], whatever they hold at [N-1]. *)
Theorem last_stimulus_sample_unused (dt V0 : R) (time Ix Ix' : list num) :
  (1 <= length time)%nat ->
  length Ix = length time -> length Ix' = length time ->
  (forall i : nat, (i + 1 < length time)%nat -> Ix !! i = Ix' !! i) ->
  exists s : St.state,
    integrate dt V0 time Ix = Ok s /\ integrate dt V0 time Ix' = Ok s.
Proof.
  intros HN HIx HIx' Hagree.
  destruct (integrate_inv dt V0 time Ix) as (s & Hs & _); [lia | lia |].
  exists s. split; [exact Hs|].
  rewrite <- (integrate_stimulus_ext dt V0 time Ix Ix' Hagree). exact Hs.
Qed.

Lemma last_stimulus_sample_unused_witness :
  exists s : St.state,
    integrate 1 (-65) [Fin 0; Fin 1; Fin 2] [Fin 5; Fin 7; Fin 9] = Ok s
    /\ integrate 1 (-65) [Fin 0; Fin 1; Fin 2] [Fin 5; Fin 7; NaN] = Ok s.
Proof.
  apply last_stimulus_sample_unused.
  - cbn. lia.
  - reflexivity.
  - reflexivity.
  - intros [|[|i]] Hi; [reflexivity | reflexivity | cbn in Hi; lia].
Defined.

(** ** The stimulus *)

Lemma lookup_norm_cdf (ndtr : R -> R) (x : list num) (loc scale : R) (i : nat) (t : R) :
  0 < scale -> x !! i = Some (Fin t) ->
  norm_cdf ndtr x loc scale !! i = Some (Fin (ndtr ((t - loc) / scale))).
Proof.
  intros Hs Hx. unfold norm_cdf. rewrite list_lookup_fmap, Hx. cbn [fmap option_fmap option_map].
  destruct (Rlt_dec 0 scale); [|contradiction].
  cbn [nsub lift2]. rewrite ndiv_fin by lra. reflexivity.
Qed.

Lemma lookup_norm_cdf_bad_scale (ndtr : R -> R) (x : list num) (loc scale : R) (i : nat) :
  scale <= 0 -> (i < length x)%nat ->
  norm_cdf ndtr x loc scale !! i = Some NaN.
Proof.
  intros Hs Hi. unfold norm_cdf. rewrite list_lookup_fmap.
  destruct (lookup_lt_is_Some_2 x i Hi) as [t ->]. cbn [fmap option_fmap option_map].
  destruct (Rlt_dec 0 scale); [lra | reflexivity].
Qed.

Lemma lookup_np_zeros_like (a : list num) (i : nat) :
  (i < length a)%nat -> np_zeros_like a !! i = Some (Fin 0).
Proof.
  intros Hi. unfold np_zeros_like. rewrite list_lookup_fmap.
  destruct (lookup_lt_is_Some_2 a i Hi) as [t ->]. reflexivity.
Qed.

Lemma lookup_stimulus (ndtr : R -> R) (c : config) (time : list num) (i : nat) (t : R) :
  0 < StepWidth c -> time !! i = Some (Fin t) ->
  stimulus ndtr c time !! i
  = Some (Fin (StepStrength c
               * (ndtr ((t - StepTime c) / StepWidth c)
                  - ndtr ((t - (StepTime c + StepDuration c)) / StepWidth c)))).
Proof.
  intros Hw Ht. unfold stimulus, vadd, smul, vsub.
  rewrite lookup_zip_with, lookup_np_zeros_like by (eapply lookup_lt_Some; exact Ht).
  cbn [mbind option_bind]. rewrite list_lookup_fmap, lookup_zip_with.
  rewrite (lookup_norm_cdf ndtr time _ _ i t Hw Ht). cbn [mbind option_bind].
  rewrite (lookup_norm_cdf ndtr time _ _ i t Hw Ht). cbn.
  do 2 f_equal. ring.
Qed.

Lemma lookup_stimulus_bad_width (ndtr : R -> R) (c : config) (time : list num) (i : nat) :
  StepWidth c <= 0 -> (i < length time)%nat ->
  stimulus ndtr c time !! i = Some NaN.
Proof.
  intros Hw Hi. unfold stimulus, vadd, smul, vsub.
  rewrite lookup_zip_with, lookup_np_zeros_like by exact Hi.
  cbn [mbind option_bind]. rewrite list_lookup_fmap, lookup_zip_with.
  rewrite !(lookup_norm_cdf_bad_scale ndtr time _ _ i Hw Hi). reflexivity.
Qed.

Lemma nmul_nneg (a b : R) (x : num) :
  (Fin (- a) * x)%num = (- (Fin a * x))%num.
Proof. destruct x; cbn; [f_equal; ring | reflexivity]. Qed.

Lemma nadd_nneg (x : num) : (Fin 0 + - x)%num = (- (Fin 0 + x))%num.
Proof. destruct x; cbn; [f_equal; ring | reflexivity]. Qed.

Lemma stimulus_negate (ndtr : R -> R) (c : config) (time : list num) :
  stimulus ndtr (with_StepStrength (- StepStrength c) c) time
  = nneg <$> stimulus ndtr c time.
Proof.
  apply list_eq. intros i. unfold stimulus, vadd, smul.
  cbn [with_StepStrength StepStrength StepTime StepWidth StepDuration].
  rewrite list_lookup_fmap, !lookup_zip_with, !list_lookup_fmap.
  destruct (np_zeros_like time !! i) as [z|] eqn:Ez; [|reflexivity].
  assert (z = Fin 0) as ->.
  { unfold np_zeros_like in Ez. rewrite list_lookup_fmap in Ez.
    destruct (time !! i); cbn in Ez; congruence. }
  cbn [mbind option_bind].
  destruct (vsub _ _ !! i) as [x|]; [|reflexivity].
  cbn [fmap option_fmap option_map mbind option_bind].
  rewrite (nmul_nneg _ 0), nadd_nneg. reflexivity.
Qed.

(** C8.  With a positive width every stimulus sample of a run is
    [A*(ndtr((t[i] - t0)/w) - ndtr((t[i] - (t0 + D))/w))], whatever the sign
    of [A]; negating [A] negates every sample. *)
Theorem stimulus_waveform (ndtr : R -> R) (c : config) :
  dt c <> 0 -> 0 < T c / dt c -> 0 < StepWidth c ->
  exists o, run ndtr c = Ok o
    /\ length (Out.Ix o) = length (Out.time o)
    /\ (forall i : nat, (i < length (Out.time o))%nat ->
        exists t : R,
          Out.time o !! i = Some (Fin t)
          /\ Out.Ix o !! i
             = Some (Fin (StepStrength c
                          * (ndtr ((t - StepTime c) / StepWidth c)
                             - ndtr ((t - (StepTime c + StepDuration c))
                                     / StepWidth c)))))
    /\ exists o', run ndtr (with_StepStrength (- StepStrength c) c) = Ok o'
         /\ Out.Ix o' = nneg <$> Out.Ix o.
Proof.
  intros Hdt HT Hw.
  destruct (run_ok ndtr c Hdt HT) as (s & _ & _ & Hrun).
  exists (output_of c (stimulus ndtr c (grid c)) s).
  split; [exact Hrun|]. cbn [output_of Out.time Out.Ix].
  split; [apply length_stimulus|]. split.
  - intros i Hi. rewrite length_grid in Hi.
    exists (INR i * dt c). split; [apply lookup_grid; exact Hi|].
    apply lookup_stimulus; [exact Hw | apply lookup_grid; exact Hi].
  - destruct (run_ok ndtr (with_StepStrength (- StepStrength c) c) Hdt HT)
      as (s' & _ & _ & Hrun').
    eexists. split; [exact Hrun'|]. cbn [output_of Out.Ix].
    apply stimulus_negate.
Qed.

Lemma stimulus_waveform_witness :
  exists o, run step_cdf inhibitory5 = Ok o
    /\ length (Out.Ix o) = length (Out.time o).
Proof.
  destruct (stimulus_waveform step_cdf inhibitory5) as (o & Ho & Hlen & _).
  - cbn. lra.
  - cbn. lra.
  - cbn. lra.
  - exists o. split; [exact Ho | exact Hlen].
Defined.

(** ** Detectors *)

Lemma event_spec (mask : list bool) (time V : list num) :
  length mask = length time -> length V = length time ->
  (exists (i0 : nat) (t v : num),
      mask !! i0 = Some true
      /\ (forall j : nat, (j < i0)%nat -> mask !! j = Some false)
      /\ time !! i0 = Some t /\ V !! i0 = Some v
      /\ event_of (np_where mask) time = Some t
      /\ event_of (np_where mask) V = Some v)
  \/ ((forall j : nat, mask !! j <> Some true)
      /\ event_of (np_where mask) time = None
      /\ event_of (np_where mask) V = None).
Proof.
  intros Hm HV. destruct (np_where mask) as [|i0 rest] eqn:E.
  - right. split; [|split; reflexivity].
    intros j Hj. pose proof (np_where_nil mask E j (lookup_lt_Some _ _ _ Hj)).
    congruence.
  - left. pose proof (np_where_head_lt mask i0 rest E) as Hlt.
    apply np_where_head in E as [H1 H2].
    destruct (lookup_lt_is_Some_2 time i0) as [t Ht]; [lia|].
    destruct (lookup_lt_is_Some_2 V i0) as [v Hv]; [lia|].
    exists i0, t, v. cbn [event_of]. repeat split; assumption.
Qed.

Lemma lookup_onset_mask (thr : R) (dV_dt : list num) (i : nat) :
  ((fun d => ngt d thr) <$> dV_dt) !! i = Some true
  <-> exists d : R, dV_dt !! i = Some (Fin d) /\ thr < d.
Proof.
  rewrite list_lookup_fmap. split.
  - destruct (dV_dt !! i) as [[d|]|]; cbn; intros H; try discriminate.
    exists d. split; [reflexivity|]. apply R_ltb_true. congruence.
  - intros (d & -> & Hd). cbn. f_equal. apply R_ltb_true. exact Hd.
Qed.

Lemma lookup_window_mask (c : config) (time : list num) (i : nat) :
  window_mask c time !! i = Some true
  <-> exists t : R, time !! i = Some (Fin t) /\ search_window c t.
Proof.
  unfold window_mask, search_window, vand.
  destruct (Rlt_dec (StepStrength c) 0).
  - rewrite list_lookup_fmap. split.
    + destruct (time !! i) as [[t|]|]; cbn; intros H; try discriminate.
      exists t. split; [reflexivity|]. apply R_ltb_true. congruence.
    + intros (t & -> & Ht). cbn. f_equal. apply R_ltb_true. exact Ht.
  - rewrite lookup_zip_with, !list_lookup_fmap. split.
    + destruct (time !! i) as [[t|]|]; cbn; intros H; try discriminate.
      exists t. split; [reflexivity|].
      injection H as H. apply andb_true_iff in H as [H1 H2].
      split; apply R_ltb_true; assumption.
    + intros (t & -> & Ht1 & Ht2). cbn. f_equal.
      apply andb_true_iff. split; apply R_ltb_true; assumption.
Qed.

Lemma lookup_band (lo hi : R) (d2V_dt : list num) (i : nat) :
  band lo hi d2V_dt !! i = Some true
  <-> exists d : R, d2V_dt !! i = Some (Fin d) /\ lo <= d <= hi.
Proof.
  unfold band, vand. rewrite lookup_zip_with, !list_lookup_fmap. split.
  - destruct (d2V_dt !! i) as [[d|]|]; cbn; intros H; try discriminate.
    exists d. split; [reflexivity|].
    injection H as H. apply andb_true_iff in H as [H1 H2].
    split; apply R_leb_true; assumption.
  - intros (d & -> & Hd1 & Hd2). cbn. f_equal.
    apply andb_true_iff. split; apply R_leb_true; assumption.
Qed.

Lemma lookup_inflection_mask (c : config) (time d2V_dt : list num) (i : nat) :
  vand (band (threshold_d2V_dt_min c) (threshold_d2V_dt_max c) d2V_dt)
       (window_mask c time) !! i = Some true
  <-> exists t d : R,
        time !! i = Some (Fin t) /\ d2V_dt !! i = Some (Fin d)
        /\ threshold_d2V_dt_min c <= d <= threshold_d2V_dt_max c
        /\ search_window c t.
Proof.
  unfold vand at 1. rewrite lookup_zip_with. split.
  - destruct (band _ _ _ !! i) as [b1|] eqn:E1; [|discriminate].
    destruct (window_mask c time !! i) as [b2|] eqn:E2; [|discriminate].
    cbn. intros [= H]. apply andb_true_iff in H as [-> ->].
    apply lookup_band in E1 as (d & Hd & Hband).
    apply lookup_window_mask in E2 as (t & Ht & Hwin).
    exists t, d. repeat split; tauto.
  - intros (t & d & Ht & Hd & Hband & Hwin).
    assert (E1 : band (threshold_d2V_dt_min c) (threshold_d2V_dt_max c) d2V_dt !! i = Some true)
      by (apply lookup_band; exists d; tauto).
    assert (E2 : window_mask c time !! i = Some true)
      by (apply lookup_window_mask; exists t; tauto).
    rewrite E1, E2. reflexivity.
Qed.

Lemma reported_of_event (cand : nat -> Prop) (mask : list bool)
  (o : Out.output) :
  (forall i : nat, mask !! i = Some true <-> cand i) ->
  length mask = length (Out.time o) ->
  length (Out.V o) = length (Out.time o) ->
  first_reported cand o (event_of (np_where mask) (Out.time o))
    (event_of (np_where mask) (Out.V o)).
Proof.
  intros Hc Hm HV.
  destruct (event_spec mask (Out.time o) (Out.V o) Hm HV)
    as [(i0 & t & v & H1 & H2 & H3 & H4 & H5 & H6) | (H1 & H2 & H3)].
  - left. exists i0, t, v. split; [apply Hc; exact H1|].
    split; [|tauto].
    intros j Hj Hcand. apply Hc in Hcand. rewrite (H2 j Hj) in Hcand. discriminate.
  - right. split; [|tauto]. intros j Hcand. apply Hc in Hcand. exact (H1 j Hcand).
Qed.

(** What both detectors of a run report. *)
Lemma detectors_report (ndtr : R -> R) (c : config) :
  dt c <> 0 -> 0 < T c / dt c ->
  exists o, run ndtr c = Ok o
    /\ first_reported (onset_candidate c o) o
         (Out.threshold_t o) (Out.threshold_v o)
    /\ first_reported (inflection_candidate search_window c o) o
         (Out.threshold_t_2 o) (Out.threshold_v_2 o).
Proof.
  intros Hdt HT.
  destruct (run_ok ndtr c Hdt HT) as (s & _ & Hinv & Hrun).
  apply grid_size_pos in HT.
  exists (output_of c (stimulus ndtr c (grid c)) s).
  split; [exact Hrun|].
  pose proof (inv_len_V _ _ _ _ _ _ Hinv) as HlenV.
  assert (Hd1 : length (derivative (dt c) (St.V s)) = grid_size c)
    by (rewrite length_derivative; lia).
  assert (Hd2 : length (derivative (dt c) (derivative (dt c) (St.V s))) = grid_size c)
    by (rewrite length_derivative; lia).
  split.
  - apply reported_of_event.
    + intros i. apply lookup_onset_mask.
    + cbn [output_of Out.time]. rewrite length_fmap, length_grid. exact Hd1.
    + cbn [output_of Out.time Out.V]. rewrite length_grid. exact HlenV.
  - apply reported_of_event.
    + intros i. apply lookup_inflection_mask.
    + cbn [output_of Out.time]. unfold vand.
      rewrite length_zip_with, length_band, length_window_mask, length_grid, Hd2.
      lia.
    + cbn [output_of Out.time Out.V]. rewrite length_grid. exact HlenV.
Qed.

(** C6.  A run raises nothing in its detectors: each reports the pair
    [(time[i0], V[i0])] of its first candidate index, or [None] for both
    components when no index is a candidate; in particular the onset detector
    reports [None] when no sample of [dV_dt] exceeds the threshold. *)
Theorem detectors_first_or_absent (ndtr : R -> R) (c : config) :
  dt c <> 0 -> 0 < T c / dt c ->
  exists o, run ndtr c = Ok o
    /\ first_reported (onset_candidate c o) o
         (Out.threshold_t o) (Out.threshold_v o)
    /\ first_reported (inflection_candidate search_window c o) o
         (Out.threshold_t_2 o) (Out.threshold_v_2 o)
    /\ ((forall (i : nat) (d : R),
            Out.dV_dt o !! i = Some (Fin d) -> d <= threshold_dV_dt c) ->
        Out.threshold_t o = None /\ Out.threshold_v o = None).
Proof.
  intros Hdt HT.
  destruct (detectors_report ndtr c Hdt HT) as (o & Ho & H1 & H2).
  exists o. repeat split; try assumption.
  - destruct H1 as [(i0 & t & v & (d & Hd & Hlt) & _) | (_ & Hn & _)]; [|exact Hn].
    specialize (H i0 d Hd). lra.
  - destruct H1 as [(i0 & t & v & (d & Hd & Hlt) & _) | (_ & _ & Hn)]; [|exact Hn].
    specialize (H i0 d Hd). lra.
Qed.

Lemma detectors_first_or_absent_witness :
  exists o, run step_cdf inhibitory5 = Ok o
    /\ first_reported (onset_candidate inhibitory5 o) o
         (Out.threshold_t o) (Out.threshold_v o).
Proof.
  destruct (detectors_first_or_absent step_cdf inhibitory5) as (o & Ho & H1 & _).
  - cbn. lra.
  - cbn. lra.
  - exists o. split; [exact Ho | exact H1].
Defined.

(** C4 (amended).  The inflection search looks at the samples strictly after
    [end_stimulus_time = StepTime + StepDuration + 3*StepWidth] when the step
    strength is negative, and strictly between [StepTime] and
    [end_stimulus_time] otherwise; it reports the first index of the window
    whose second derivative lies in the closed band, with its time and
    voltage. *)
Theorem inflection_search_window (ndtr : R -> R) (c : config) :
  dt c <> 0 -> 0 < T c / dt c ->
  exists o, run ndtr c = Ok o
    /\ (StepStrength c < 0 ->
        forall t : R,
          search_window c t
          <-> StepTime c + StepDuration c + 3 * StepWidth c < t)
    /\ (0 <= StepStrength c ->
        forall t : R,
          search_window c t
          <-> StepTime c < t < StepTime c + StepDuration c + 3 * StepWidth c)
    /\ first_reported (inflection_candidate search_window c o) o
         (Out.threshold_t_2 o) (Out.threshold_v_2 o).
Proof.
  intros Hdt HT.
  destruct (detectors_report ndtr c Hdt HT) as (o & Ho & _ & H2).
  exists o. split; [exact Ho|]. split; [|split; [|exact H2]].
  - intros HA t. unfold search_window, end_stimulus_time.
    destruct (Rlt_dec (StepStrength c) 0); [reflexivity | contradiction].
  - intros HA t. unfold search_window, end_stimulus_time.
    destruct (Rlt_dec (StepStrength c) 0); [lra | reflexivity].
Qed.

Lemma inflection_search_window_witness :
  exists o, run step_cdf inhibitory5 = Ok o
    /\ first_reported (inflection_candidate search_window inhibitory5 o) o
         (Out.threshold_t_2 o) (Out.threshold_v_2 o).
Proof.
  destruct (inflection_search_window step_cdf inhibitory5) as (o & Ho & _ & _ & H).
  - cbn. lra.
  - cbn. lra.
  - exists o. split; [exact Ho | exact H].
Defined.

(** C4 (counterexample).  On the five-sample configuration [inhibitory5] the
    last sample has [time[4] = end_stimulus_time = 2] and [d2V_dt[4] = 0]: a
    window closed at [end_stimulus_time] has index 4 as its first candidate,
    and the run reports no inflection event. *)
Lemma inflection_window_closed_refuted :
  ~ (forall (ndtr : R -> R) (c : config) (o : Out.output),
        run ndtr c = Ok o ->
        first_reported (inflection_candidate closed_search_window c o) o
          (Out.threshold_t_2 o) (Out.threshold_v_2 o)).
Proof.
  intros Hclaim.
  assert (Hdt : dt inhibitory5 <> 0) by (cbn; lra).
  assert (HT : 0 < T inhibitory5 / dt inhibitory5) by (cbn; lra).
  destruct (run_ok step_cdf inhibitory5 Hdt HT) as (s & _ & Hinv & Hrun).
  destruct (detectors_report step_cdf inhibitory5 Hdt HT) as (o & Ho & _ & Hcode).
  rewrite Hrun in Ho. injection Ho as <-.
  specialize (Hclaim _ _ _ Hrun).
  set (o := output_of inhibitory5 (stimulus step_cdf inhibitory5 (grid inhibitory5)) s) in *.
  assert (Htime : forall i : nat, (i < 5)%nat ->
                               Out.time o !! i = Some (Fin (INR i * 0.5))).
  { intros i Hi. apply (lookup_grid inhibitory5). rewrite grid_size_inhibitory5. exact Hi. }
  assert (Hnone : Out.threshold_t_2 o = None).
  { destruct Hcode as [(i0 & t & v & (t' & d & Ht' & _ & _ & Hwin) & _) | (_ & Hn & _)];
      [|exact Hn].
    exfalso. pose proof (lookup_lt_Some _ _ _ Ht') as Hi0.
    change (Out.time o) with (grid inhibitory5) in Hi0.
    rewrite length_grid, grid_size_inhibitory5 in Hi0.
    rewrite (Htime i0 Hi0) in Ht'. injection Ht' as <-.
    unfold search_window, end_stimulus_time in Hwin. cbn in Hwin.
    destruct (Rlt_dec (-1) 0); [|lra].
    assert (Hle : INR i0 <= INR 4) by (apply le_INR; lia).
    cbn in Hle. lra. }
  assert (Hcand : inflection_candidate closed_search_window inhibitory5 o 4).
  { exists (INR 4 * 0.5), 0. split; [apply Htime; lia|]. split.
    - pose proof (inv_len_V _ _ _ _ _ _ Hinv) as HlenV.
      rewrite grid_size_inhibitory5 in HlenV.
      pose proof (lookup_derivative_last (dt inhibitory5)
                    (derivative (dt inhibitory5) (St.V s))) as Hlast.
      rewrite length_derivative, HlenV in Hlast by lia. exact Hlast.
    - split; [cbn; lra|].
      unfold closed_search_window, end_stimulus_time. cbn.
      destruct (Rlt_dec (-1) 0); lra. }
  destruct Hclaim as [(i0 & t & v & _ & _ & _ & _ & Hrt & _) | (Hno & _)].
  - rewrite Hnone in Hrt. discriminate.
  - exact (Hno 4%nat Hcand).
Qed.

(** C3 (amended).  The script checks no configuration value.  A zero [dt]
    raises in [np.arange], before any array exists; a non-positive [T/dt]
    gives an empty grid and the run raises [IndexError] at [V[0] = V0];
    a positive [T/dt] completes with every trace at the full length
    [ceil(T/dt)], whatever the signs of [dt], [T] and [StepWidth], and a
    non-positive [StepWidth] makes every stimulus sample nan. *)
Theorem no_configuration_check (ndtr : R -> R) (c : config) :
  (dt c = 0 -> run ndtr c = Raise ZeroDivisionError)
  /\ (dt c <> 0 -> T c / dt c <= 0 ->
      np_arange 0 (T c) (dt c) = Ok []
      /\ run ndtr c = Raise IndexError)
  /\ (dt c <> 0 -> 0 < T c / dt c ->
      exists o, run ndtr c = Ok o
        /\ Z.of_nat (length (Out.time o)) = Rceil (T c / dt c)
        /\ length (Out.Ix o) = length (Out.time o)
        /\ length (Out.V o) = length (Out.time o)
        /\ length (Out.n o) = length (Out.time o)
        /\ length (Out.m o) = length (Out.time o)
        /\ length (Out.h o) = length (Out.time o)
        /\ length (Out.dV_dt o) = length (Out.time o)
        /\ length (Out.d2V_dt o) = length (Out.time o)
        /\ (StepWidth c <= 0 ->
            forall i : nat, (i < length (Out.time o))%nat ->
              Out.Ix o !! i = Some NaN)).
Proof.
  split; [apply run_zero_step|]. split.
  - intros Hdt HT. split; [|apply run_empty_grid; assumption].
    rewrite np_arange_grid by exact Hdt. rewrite (grid_empty c HT). reflexivity.
  - intros Hdt HT.
    destruct (run_ok ndtr c Hdt HT) as (s & _ & Hinv & Hrun).
    exists (output_of c (stimulus ndtr c (grid c)) s).
    split; [exact Hrun|].
    cbn [output_of Out.time Out.Ix Out.V Out.n Out.m Out.h Out.dV_dt Out.d2V_dt].
    rewrite length_grid, length_stimulus, length_grid.
    destruct Hinv as [HV Hn Hm Hh _ _ _ _ _].
    pose proof (proj1 (grid_size_pos c) HT) as HN.
    assert (Hd1 : length (derivative (dt c) (St.V s)) = grid_size c)
      by (rewrite length_derivative; lia).
    assert (Hd2 : length (derivative (dt c) (derivative (dt c) (St.V s))) = grid_size c)
      by (rewrite length_derivative; lia).
    repeat split; try assumption.
    + unfold grid_size. replace (T c - 0) with (T c) by lra.
      apply Z2Nat.id. apply Rceil_pos in HT. lia.
    + intros Hw i Hi. apply lookup_stimulus_bad_width; [exact Hw|].
      rewrite length_grid. exact Hi.
Qed.

(** C3 (counterexample).  With [T = -2.5] and [dt = -0.5] no error is
    raised: the run completes. *)
Lemma invalid_configuration_accepted :
  ~ (forall (ndtr : R -> R) (c : config),
        dt c <= 0 \/ T c <= 0 \/ StepWidth c <= 0 ->
        exists e : exn, run ndtr c = Raise e).
Proof.
  intros Hclaim.
  destruct (Hclaim step_cdf reversed5) as (e & He); [left; cbn; lra|].
  destruct (run_ok step_cdf reversed5) as (s & _ & _ & Hrun).
  - cbn. lra.
  - cbn. lra.
  - rewrite Hrun in He. discriminate.
Qed.

Lemma no_configuration_check_witness :
  exists o, run step_cdf reversed5 = Ok o
    /\ length (Out.V o) = length (Out.time o).
Proof.
  destruct (no_configuration_check step_cdf reversed5) as (_ & _ & H).
  destruct H as (o & Ho & _ & _ & HV & _).
  - cbn. lra.
  - cbn. lra.
  - exists o. split; [exact Ho | exact HV].
Defined.

(** * Further properties of the script *)

(** ** Steady states and time constants *)

Lemma gate_ratio (alpha beta : num) (a b : R) :
  alpha = Fin a -> beta = Fin b -> 0 < a -> 0 < b ->
  (alpha / (alpha + beta))%num = Fin (a / (a + b))
  /\ (1 / (alpha + beta))%num = Fin (1 / (a + b))
  /\ 0 < a / (a + b) < 1 /\ 0 < 1 / (a + b).
Proof.
  intros -> -> Ha Hb. cbn [nadd lift2]. rewrite !ndiv_fin by lra.
  split; [reflexivity|]. split; [reflexivity|].
  assert (Hs : 0 < a + b) by lra.
  assert (Hi : 0 < / (a + b)) by (apply Rinv_0_lt_compat; exact Hs).
  assert (H1 : (a + b) * / (a + b) = 1) by (apply Rinv_r; lra).
  unfold Rdiv. repeat split; nra.
Qed.

Lemma ninfty_pole : ninfty (-55) = NaN /\ taun (-55) = NaN.
Proof. unfold ninfty, taun. rewrite alphan_pole. split; reflexivity. Qed.

Lemma minfty_pole : minfty (-40) = NaN /\ taum (-40) = NaN.
Proof. unfold minfty, taum. rewrite alpham_pole. split; reflexivity. Qed.

(** X1.  On the voltage range [-100 .. 60] and away from the pole of its
    rate function every steady state [alpha/(alpha + beta)] is a finite
    fraction strictly between 0 and 1 and every time constant
    [1/(alpha + beta)] is finite and positive; at the poles [ninfty], [taun],
    [minfty] and [taum] are nan.  The range is the one the traces of the
    script live in; far outside it [np.exp] overflows or a ratio rounds to 0
    or 1, which the exact arithmetic of the model does not show. *)
Theorem steady_states_are_fractions (V : R) :
  -100 <= V <= 60 ->
  (V <> -55 ->
   exists x tau : R,
     ninfty V = Fin x /\ taun V = Fin tau /\ 0 < x < 1 /\ 0 < tau)
  /\ (V <> -40 ->
      exists x tau : R,
        minfty V = Fin x /\ taum V = Fin tau /\ 0 < x < 1 /\ 0 < tau)
  /\ (exists x tau : R,
        hinfty V = Fin x /\ tauh V = Fin tau /\ 0 < x < 1 /\ 0 < tau)
  /\ ninfty (-55) = NaN /\ taun (-55) = NaN
  /\ minfty (-40) = NaN /\ taum (-40) = NaN.
Proof.
  intros _. split; [|split; [|split]].
  - intros HV. destruct (alphan_pos V HV) as (a & Ha & Hpa).
    destruct (betan_pos V) as (b & Hb & Hpb).
    destruct (gate_ratio _ _ a b Ha Hb Hpa Hpb) as (H1 & H2 & H3 & H4).
    exists (a / (a + b)), (1 / (a + b)). repeat split; try assumption; tauto.
  - intros HV. destruct (alpham_pos V HV) as (a & Ha & Hpa).
    destruct (betam_pos V) as (b & Hb & Hpb).
    destruct (gate_ratio _ _ a b Ha Hb Hpa Hpb) as (H1 & H2 & H3 & H4).
    exists (a / (a + b)), (1 / (a + b)). repeat split; try assumption; tauto.
  - destruct (alphah_pos V) as (a & Ha & Hpa).
    destruct (betah_pos V) as (b & Hb & Hpb).
    destruct (gate_ratio _ _ a b Ha Hb Hpa Hpb) as (H1 & H2 & H3 & H4).
    exists (a / (a + b)), (1 / (a + b)). repeat split; try assumption; tauto.
  - pose proof ninfty_pole. pose proof minfty_pole. tauto.
Qed.

Lemma steady_states_are_fractions_witness :
  exists x tau : R,
    hinfty (-65) = Fin x /\ tauh (-65) = Fin tau /\ 0 < x < 1 /\ 0 < tau.
Proof.
  destruct (steady_states_are_fractions (-65)) as (_ & _ & H & _).
  - lra.
  - exact H.
Defined.

(** ** Ionic currents *)

Lemma pow4_nonneg (x : R) : 0 <= x ^ 4.
Proof. replace (x ^ 4) with ((x ^ 2) ^ 2) by ring. apply pow2_ge_0. Qed.

(** X2.  Each current vanishes at its reversal potential and changes sign
    there: on finite arguments the leak and potassium currents are
    non-positive above [EL] and [EK] and non-negative below, and with
    non-negative gates the sodium current is non-negative below [ENa] and
    non-positive above. *)
Theorem currents_reverse (n m h V : R) :
  IL EL = Fin 0 /\ IK n EK = Fin 0 /\ INa m h ENa = Fin 0
  /\ (exists il : R, IL V = Fin il
        /\ (EL <= V -> il <= 0) /\ (V <= EL -> 0 <= il))
  /\ (exists ik : R, IK n V = Fin ik
        /\ (EK <= V -> ik <= 0) /\ (V <= EK -> 0 <= ik))
  /\ (exists ina : R, INa m h V = Fin ina
        /\ (0 <= m -> 0 <= h -> V <= ENa -> 0 <= ina)
        /\ (0 <= m -> 0 <= h -> ENa <= V -> ina <= 0)).
Proof.
  split; [unfold IL; cbn; f_equal; ring|].
  split; [unfold IK; cbn; f_equal; ring|].
  split; [unfold INa; cbn; f_equal; ring|].
  split; [|split].
  - eexists. split; [reflexivity|]. unfold gL, EL. split; intros; nra.
  - eexists. split; [reflexivity|]. cbv beta.
    pose proof (pow4_nonneg n) as Hn. unfold gK, EK. split; intros; nra.
  - eexists. split; [reflexivity|]. cbv beta.
    assert (Hm : 0 <= m -> 0 <= h -> 0 <= m ^ 3 * h).
    { intros H1 H2. apply Rmult_le_pos; [apply pow_le; exact H1 | exact H2]. }
    unfold gNa, ENa. split; intros H1 H2 H3; specialize (Hm H1 H2); nra.
Qed.

(** ** One iteration of the loop *)

Lemma getitem_None (a : list num) (i : nat) :
  (length a <= i)%nat -> getitem a i = Raise IndexError.
Proof. intros H. unfold getitem. rewrite (lookup_ge_None_2 a i H). reflexivity. Qed.

Lemma getitem_lt (a : list num) (i : nat) :
  (i < length a)%nat -> getitem a i = Ok (a !!! i).
Proof. intros H. apply getitem_Some, lookup_total_lt. exact H. Qed.

(** X3.  An iteration [i] of the loop body succeeds exactly when [i + 1] is
    an index of the four traces and [i] an index of the stimulus, and raises
    [IndexError] otherwise; when it succeeds it keeps the four lengths and
    changes no sample other than those at [i + 1]. *)
Theorem euler_body_writes_next_only (dt : R) (Ix : list num) (s : St.state)
  (i : nat) :
  let inside :=
    ((i + 1 < length (St.V s))%nat /\ (i + 1 < length (St.n s))%nat
     /\ (i + 1 < length (St.m s))%nat /\ (i + 1 < length (St.h s))%nat
     /\ (i < length Ix)%nat) in
  (inside ->
   exists s', euler_body dt Ix s i = Ok s'
     /\ length (St.V s') = length (St.V s)
     /\ length (St.n s') = length (St.n s)
     /\ length (St.m s') = length (St.m s)
     /\ length (St.h s') = length (St.h s)
     /\ forall j : nat, j <> (i + 1)%nat ->
          St.V s' !! j = St.V s !! j /\ St.n s' !! j = St.n s !! j
          /\ St.m s' !! j = St.m s !! j /\ St.h s' !! j = St.h s !! j)
  /\ (~ inside -> euler_body dt Ix s i = Raise IndexError).
Proof.
  cbv zeta. destruct s as [V n m h]. cbn [St.V St.n St.m St.h].
  assert (Hne : (i + 1)%nat <> i) by lia.
  split.
  - intros (HV & Hn & Hm & Hh & HIx).
    eexists. split.
    + unfold euler_body.
      rewrite (getitem_lt n i), (getitem_lt V i) by lia. cbn [bind].
      rewrite setitem_lt by lia. cbn [bind].
      rewrite (getitem_lt m i) by lia. cbn [bind].
      rewrite setitem_lt by lia. cbn [bind].
      rewrite (getitem_lt h i) by lia. cbn [bind].
      rewrite setitem_lt by lia. cbn [bind].
      rewrite !(getitem_lt (<[_:=_]> _) i) by (rewrite length_insert; lia).
      cbn [bind].
      rewrite (getitem_lt Ix i) by lia. cbn [bind].
      rewrite setitem_lt by lia. cbn [bind]. reflexivity.
    + cbn [St.V St.n St.m St.h]. rewrite !length_insert.
      repeat split; try reflexivity;
        apply list_lookup_insert_ne; congruence.
  - intros Hout. unfold euler_body.
    destruct (le_lt_dec (length n) i) as [Hn|Hn];
      [rewrite (getitem_None n i Hn); reflexivity|].
    rewrite (getitem_lt n i Hn). cbn [bind].
    destruct (le_lt_dec (length V) i) as [HV|HV];
      [rewrite (getitem_None V i HV); reflexivity|].
    rewrite (getitem_lt V i HV). cbn [bind].
    destruct (le_lt_dec (length n) (i + 1)) as [Hn1|Hn1];
      [rewrite setitem_ge by exact Hn1; reflexivity|].
    rewrite setitem_lt by exact Hn1. cbn [bind].
    destruct (le_lt_dec (length m) i) as [Hm|Hm];
      [rewrite (getitem_None m i Hm); reflexivity|].
    rewrite (getitem_lt m i Hm). cbn [bind].
    destruct (le_lt_dec (length m) (i + 1)) as [Hm1|Hm1];
      [rewrite setitem_ge by exact Hm1; reflexivity|].
    rewrite setitem_lt by exact Hm1. cbn [bind].
    destruct (le_lt_dec (length h) i) as [Hh|Hh];
      [rewrite (getitem_None h i Hh); reflexivity|].
    rewrite (getitem_lt h i Hh). cbn [bind].
    destruct (le_lt_dec (length h) (i + 1)) as [Hh1|Hh1];
      [rewrite setitem_ge by exact Hh1; reflexivity|].
    rewrite setitem_lt by exact Hh1. cbn [bind].
    rewrite !(getitem_lt (<[_:=_]> _) i) by (rewrite length_insert; lia).
    cbn [bind].
    destruct (le_lt_dec (length Ix) i) as [HIx|HIx];
      [rewrite (getitem_None Ix i HIx); reflexivity|].
    rewrite (getitem_lt Ix i HIx). cbn [bind].
    destruct (le_lt_dec (length V) (i + 1)) as [HV1|HV1];
      [rewrite setitem_ge by exact HV1; reflexivity|].
    exfalso. apply Hout. repeat split; assumption.
Qed.

(** ** Gates along a run *)

(** The first samples of a run started away from the poles are finite. *)
Lemma first_samples_finite (ndtr : R -> R) (c : config) (o : Out.output) :
  dt c <> 0 -> 0 < T c / dt c -> 0 < StepWidth c ->
  V0 c <> -55 -> V0 c <> -40 ->
  run ndtr c = Ok o ->
  length (Out.time o) = grid_size c
  /\ exists x y z ix : R,
       Out.V o !! 0%nat = Some (Fin (V0 c))
       /\ Out.n o !! 0%nat = Some (Fin x) /\ Out.m o !! 0%nat = Some (Fin y)
       /\ Out.h o !! 0%nat = Some (Fin z) /\ Out.Ix o !! 0%nat = Some (Fin ix)
       /\ 0 < x < 1 /\ 0 < y < 1 /\ 0 < z < 1.
Proof.
  intros Hdt HT Hw Hv1 Hv2 Ho.
  destruct (run_ok ndtr c Hdt HT) as (s & _ & Hinv & Hrun).
  rewrite Hrun in Ho. injection Ho as <-.
  cbn [output_of Out.time Out.V Out.n Out.m Out.h Out.Ix].
  split; [apply length_grid|].
  pose proof (proj1 (grid_size_pos c) HT) as HN.
  destruct (alphan_pos _ Hv1) as (an & Han & Hpan).
  destruct (betan_pos (V0 c)) as (bn & Hbn & Hpbn).
  destruct (alpham_pos _ Hv2) as (am & Ham & Hpam).
  destruct (betam_pos (V0 c)) as (bm & Hbm & Hpbm).
  destruct (alphah_pos (V0 c)) as (ah & Hah & Hpah).
  destruct (betah_pos (V0 c)) as (bh & Hbh & Hpbh).
  destruct (gate_ratio _ _ an bn Han Hbn Hpan Hpbn) as (Hn & _ & Hn01 & _).
  destruct (gate_ratio _ _ am bm Ham Hbm Hpam Hpbm) as (Hm & _ & Hm01 & _).
  destruct (gate_ratio _ _ ah bh Hah Hbh Hpah Hpbh) as (Hh & _ & Hh01 & _).
  eexists _, _, _, _.
  split; [exact (inv_V0 _ _ _ _ _ _ Hinv)|].
  split; [rewrite (inv_n0 _ _ _ _ _ _ Hinv); unfold ninfty; rewrite Hn; reflexivity|].
  split; [rewrite (inv_m0 _ _ _ _ _ _ Hinv); unfold minfty; rewrite Hm; reflexivity|].
  split; [rewrite (inv_h0 _ _ _ _ _ _ Hinv); unfold hinfty; rewrite Hh; reflexivity|].
  split; [apply (lookup_stimulus ndtr c (grid c) 0 (INR 0 * dt c) Hw);
          apply lookup_grid; exact HN|].
  repeat split; tauto.
Qed.


(** An Euler step of a gate [x' = x + dt*((1 - x)*a - x*b)] with positive
    rates stays in [[0, 1]] when the step is no longer than [1/(a + b)]. *)
Lemma gate_step_bounds (dt x a b : R) :
  0 < a -> 0 < b -> 0 <= x <= 1 -> 0 <= dt <= 1 / (a + b) ->
  0 <= x + dt * ((1 - x) * a - x * b) <= 1.
Proof.
  intros Ha Hb Hx [Hd1 Hd2].
  assert (Hs : 0 < a + b) by lra.
  assert (Hd : dt * (a + b) <= 1).
  { apply (Rmult_le_compat_r (a + b)) in Hd2; [|lra].
    replace (1 / (a + b) * (a + b)) with 1 in Hd2 by (field; lra). exact Hd2. }
  split; nra.
Qed.

Lemma gate_step_fin (alpha beta : num) (dt x a b tau : R) :
  alpha = Fin a -> beta = Fin b -> 0 < a -> 0 < b ->
  (1 / (alpha + beta))%num = Fin tau ->
  0 <= x <= 1 -> 0 <= dt <= tau ->
  exists x' : R,
    (Fin x + dt * ((1 - Fin x) * alpha - Fin x * beta))%num = Fin x'
    /\ 0 <= x' <= 1.
Proof.
  intros -> -> Ha Hb Htau Hx Hdt.
  cbn [nadd lift2] in Htau. rewrite ndiv_fin in Htau by lra.
  injection Htau as <-.
  eexists. split; [reflexivity|]. cbv beta.
  apply gate_step_bounds; assumption.
Qed.

(** X4.  Along a run, a step no longer than the time constant of a gate at
    the present voltage keeps that gate in [[0, 1]]: for [i <= N-2], a finite
    voltage [V[i]] away from the pole, and [0 <= dt <= tau(V[i])], a sample
    [0 <= x[i] <= 1] gives [0 <= x[i+1] <= 1], for each of [n], [m], [h]. *)
Theorem gates_stay_fractions (ndtr : R -> R) (c : config) :
  dt c <> 0 -> 0 < T c / dt c ->
  exists o, run ndtr c = Ok o
    /\ forall (i : nat) (v : R),
         (i + 2 <= length (Out.time o))%nat ->
         Out.V o !! i = Some (Fin v) ->
         (forall x tau : R,
             v <> -55 -> Out.n o !! i = Some (Fin x) -> 0 <= x <= 1 ->
             taun v = Fin tau -> 0 <= dt c <= tau ->
             exists x' : R,
               Out.n o !! (i + 1)%nat = Some (Fin x') /\ 0 <= x' <= 1)
         /\ (forall x tau : R,
               v <> -40 -> Out.m o !! i = Some (Fin x) -> 0 <= x <= 1 ->
               taum v = Fin tau -> 0 <= dt c <= tau ->
               exists x' : R,
                 Out.m o !! (i + 1)%nat = Some (Fin x') /\ 0 <= x' <= 1)
         /\ (forall x tau : R,
               Out.h o !! i = Some (Fin x) -> 0 <= x <= 1 ->
               tauh v = Fin tau -> 0 <= dt c <= tau ->
               exists x' : R,
                 Out.h o !! (i + 1)%nat = Some (Fin x') /\ 0 <= x' <= 1).
Proof.
  intros Hdt HT.
  destruct (run_ok ndtr c Hdt HT) as (s & _ & Hinv & Hrun).
  exists (output_of c (stimulus ndtr c (grid c)) s).
  split; [exact Hrun|].
  cbn [output_of Out.time Out.V Out.n Out.m Out.h]. rewrite length_grid.
  intros i v Hi HV.
  destruct (inv_steps _ _ _ _ _ _ Hinv i)
    as (Vi & ni & mi & hi & Ixi & H1 & H2 & H3 & H4 & H5 & H6 & H7 & H8 & H9);
    [lia|].
  rewrite HV in H1. injection H1 as <-.
  split; [|split].
  - intros x tau Hv Hx Hx01 Htau Hd. rewrite Hx in H2. injection H2 as <-.
    destruct (alphan_pos v Hv) as (a & Ha & Hpa).
    destruct (betan_pos v) as (b & Hb & Hpb).
    destruct (gate_step_fin _ _ (dt c) x a b tau Ha Hb Hpa Hpb Htau Hx01 Hd)
      as (x' & Hx' & Hb').
    exists x'. rewrite H6, Hx'. split; [reflexivity | exact Hb'].
  - intros x tau Hv Hx Hx01 Htau Hd. rewrite Hx in H3. injection H3 as <-.
    destruct (alpham_pos v Hv) as (a & Ha & Hpa).
    destruct (betam_pos v) as (b & Hb & Hpb).
    destruct (gate_step_fin _ _ (dt c) x a b tau Ha Hb Hpa Hpb Htau Hx01 Hd)
      as (x' & Hx' & Hb').
    exists x'. rewrite H7, Hx'. split; [reflexivity | exact Hb'].
  - intros x tau Hx Hx01 Htau Hd. rewrite Hx in H4. injection H4 as <-.
    destruct (alphah_pos v) as (a & Ha & Hpa).
    destruct (betah_pos v) as (b & Hb & Hpb).
    destruct (gate_step_fin _ _ (dt c) x a b tau Ha Hb Hpa Hpb Htau Hx01 Hd)
      as (x' & Hx' & Hb').
    exists x'. rewrite H8, Hx'. split; [reflexivity | exact Hb'].
Qed.

Lemma tauh_rest_bound :
  exists tau : R, tauh (-65.0) = Fin tau /\ 0.5 <= tau.
Proof.
  unfold tauh, alphah, betah. cbn [nadd nmul lift2 np_exp lift1].
  replace (-0.05 * (-65.0 + 65)) with 0 by lra. rewrite exp_0.
  pose proof (exp_pos (-0.1 * (-65.0 + 35))) as He.
  set (e := exp (-0.1 * (-65.0 + 35))) in *.
  rewrite (ndiv_fin 1 (1 + e)) by lra. cbn [nadd lift2].
  assert (Hb : 0 < 1 / (1 + e) < 1).
  { split; [apply Rdiv_lt_0_compat; lra|].
    apply (Rmult_lt_reg_r (1 + e)); [lra|].
    replace (1 / (1 + e) * (1 + e)) with 1 by (field; lra). lra. }
  rewrite ndiv_fin by lra.
  eexists. split; [reflexivity|].
  apply (Rmult_le_reg_r (0.07 * 1 + 1 / (1 + e))); [lra|].
  replace (1 / (0.07 * 1 + 1 / (1 + e)) * (0.07 * 1 + 1 / (1 + e))) with 1
    by (field; lra).
  lra.
Qed.

Lemma gates_stay_fractions_witness :
  exists o, run step_cdf inhibitory5 = Ok o
    /\ exists x' : R, Out.h o !! 1%nat = Some (Fin x') /\ 0 <= x' <= 1.
Proof.
  destruct (gates_stay_fractions step_cdf inhibitory5) as (o & Ho & H).
  - cbn. lra.
  - cbn. lra.
  - exists o. split; [exact Ho|].
    destruct (first_samples_finite step_cdf inhibitory5 o)
      as (HN & x & y & z & ix & HV & Hn & Hm & Hh & HIx & _ & _ & Hz01);
      [cbn; lra | cbn; lra | cbn; lra | cbn; lra | cbn; lra | exact Ho |].
    rewrite grid_size_inhibitory5 in HN.
    destruct (H 0%nat (V0 inhibitory5)) as (_ & _ & Hgate); [lia | exact HV |].
    destruct tauh_rest_bound as (tau & Htau & Hle).
    apply (Hgate z tau Hh); [lra | exact Htau | cbn; lra].
Defined.

(** ** The derivative trace and the membrane equation *)

Lemma voltage_step_quotient (dt v I ix : R) :
  dt <> 0 ->
  ((Fin v + dt * (Fin I + Fin ix) / Cm - Fin v) / dt)%num = Fin (I + ix).
Proof.
  intros Hdt. cbn [nadd nsub nmul lift2].
  rewrite ndiv_fin by (unfold Cm; lra). cbn [nadd nsub lift2].
  rewrite ndiv_fin by exact Hdt. f_equal. unfold Cm. field. exact Hdt.
Qed.

Lemma Iion_fin (x y z v : R) : exists I : R, Iion x y z v = Fin I.
Proof. eexists. reflexivity. Qed.

(** X6.  With a positive step the voltage never moves against the net
    membrane current: for [i <= N-2] and a finite state and stimulus at [i],
    a finite [dV_dt[i]] is non-negative when [Iion(n[i], m[i], h[i], V[i]) +
    Ix[i]] is non-negative and non-positive when it is non-positive. *)
Theorem voltage_moves_with_net_current (ndtr : R -> R) (c : config) :
  0 < dt c -> 0 < T c / dt c ->
  exists o, run ndtr c = Ok o
    /\ forall (i : nat) (v x y z ix d : R),
         (i + 2 <= length (Out.time o))%nat ->
         Out.V o !! i = Some (Fin v) -> Out.n o !! i = Some (Fin x) ->
         Out.m o !! i = Some (Fin y) -> Out.h o !! i = Some (Fin z) ->
         Out.Ix o !! i = Some (Fin ix) ->
         Out.dV_dt o !! i = Some (Fin d) ->
         exists I : R,
           (Iion x y z v + ix)%num = Fin I
           /\ (0 <= I -> 0 <= d) /\ (I <= 0 -> d <= 0).
Proof.
  intros Hdt HT.
  assert (Hdt0 : dt c <> 0) by lra.
  destruct (run_ok ndtr c Hdt0 HT) as (s & _ & Hinv & Hrun).
  exists (output_of c (stimulus ndtr c (grid c)) s).
  split; [exact Hrun|].
  cbn [output_of Out.time Out.V Out.n Out.m Out.h Out.Ix Out.dV_dt].
  rewrite length_grid. intros i v x y z ix d Hi HV Hn Hm Hh HIx Hd.
  destruct (inv_steps _ _ _ _ _ _ Hinv i)
    as (Vi & ni & mi & hi & Ixi & H1 & H2 & H3 & H4 & H5 & _ & _ & _ & H9);
    [lia|].
  rewrite HV in H1. injection H1 as <-. rewrite Hn in H2. injection H2 as <-.
  rewrite Hm in H3. injection H3 as <-. rewrite Hh in H4. injection H4 as <-.
  rewrite HIx in H5. injection H5 as <-.
  rewrite (lookup_derivative (dt c) (St.V s) i _ _ HV H9) in Hd.
  destruct (Iion_fin x y z v) as (I & HI). rewrite HI in Hd |- *.
  rewrite (voltage_step_quotient (dt c) v I ix Hdt0) in Hd.
  injection Hd as <-.
  exists (I + ix). split; [reflexivity|]. split; intros H; exact H.
Qed.

Lemma voltage_moves_with_net_current_witness :
  exists o, run step_cdf inhibitory5 = Ok o
    /\ forall d : R,
         Out.dV_dt o !! 0%nat = Some (Fin d) ->
         exists I : R, (0 <= I -> 0 <= d) /\ (I <= 0 -> d <= 0).
Proof.
  destruct (voltage_moves_with_net_current step_cdf inhibitory5) as (o & Ho & H).
  - cbn. lra.
  - cbn. lra.
  - exists o. split; [exact Ho|]. intros d Hd.
    destruct (first_samples_finite step_cdf inhibitory5 o)
      as (HN & x & y & z & ix & HV & Hn & Hm & Hh & HIx & _);
      [cbn; lra | cbn; lra | cbn; lra | cbn; lra | cbn; lra | exact Ho |].
    rewrite grid_size_inhibitory5 in HN.
    destruct (H 0%nat (V0 inhibitory5) x y z ix d) as (I & _ & Hs);
      [lia | exact HV | exact Hn | exact Hm | exact Hh | exact HIx | exact Hd |].
    exists I. exact Hs.
Defined.

(** ** The padded last sample and the detectors *)

Lemma run_detectors (ndtr : R -> R) (c : config) :
  dt c <> 0 -> 0 < T c / dt c ->
  exists s,
    let o := output_of c (stimulus ndtr c (grid c)) s in
    run ndtr c = Ok o
    /\ euler_inv (dt c) (V0 c) (grid_size c) (stimulus ndtr c (grid c))
         (grid_size c - 1) s
    /\ length (St.V s) = grid_size c
    /\ (0 < grid_size c)%nat
    /\ first_reported (onset_candidate c o) o
         (Out.threshold_t o) (Out.threshold_v o)
    /\ first_reported (inflection_candidate search_window c o) o
         (Out.threshold_t_2 o) (Out.threshold_v_2 o).
Proof.
  intros Hdt HT.
  destruct (run_ok ndtr c Hdt HT) as (s & _ & Hinv & Hrun).
  destruct (detectors_report ndtr c Hdt HT) as (o & Ho & H1 & H2).
  rewrite Hrun in Ho. injection Ho as <-.
  exists s. cbv zeta. split; [exact Hrun|]. split; [exact Hinv|].
  split; [exact (inv_len_V _ _ _ _ _ _ Hinv)|].
  split; [apply grid_size_pos; exact HT|]. split; assumption.
Qed.

(** X7.  With a non-negative [threshold_dV_dt] the onset detector never
    selects the padded last sample: every index that passes the onset test,
    and so the reported onset, is at most [N-2]. *)
Theorem onset_before_last_sample (ndtr : R -> R) (c : config) :
  dt c <> 0 -> 0 < T c / dt c -> 0 <= threshold_dV_dt c ->
  exists o, run ndtr c = Ok o
    /\ (forall i : nat,
          onset_candidate c o i -> (i + 2 <= length (Out.time o))%nat)
    /\ (forall t : num,
          Out.threshold_t o = Some t ->
          exists i0 : nat,
            (i0 + 2 <= length (Out.time o))%nat /\ Out.time o !! i0 = Some t).
Proof.
  intros Hdt HT Hthr.
  destruct (run_detectors ndtr c Hdt HT)
    as (s & Hrun & _ & HlenV & HN & Hon & _).
  cbv zeta in *.
  exists (output_of c (stimulus ndtr c (grid c)) s).
  split; [exact Hrun|].
  assert (Hcand : forall i : nat,
             onset_candidate c (output_of c (stimulus ndtr c (grid c)) s) i ->
             (i + 2 <= length (grid c))%nat).
  { intros i (d & Hd & Hlt). rewrite length_grid.
    cbn [output_of Out.dV_dt] in Hd.
    pose proof (lookup_lt_Some _ _ _ Hd) as Hi.
    rewrite length_derivative, HlenV in Hi by lia.
    destruct (decide (i = grid_size c - 1)%nat) as [->|Hne]; [|lia].
    rewrite <- HlenV, lookup_derivative_last in Hd. injection Hd as <-. lra. }
  split; [exact Hcand|].
  intros t Ht.
  destruct Hon as [(i0 & t' & v & Hc & _ & Htime & _ & Hrt & _) | (_ & Hn & _)].
  - exists i0. split; [apply Hcand; exact Hc|]. congruence.
  - congruence.
Qed.

Lemma onset_before_last_sample_witness :
  exists o, run step_cdf reference = Ok o.
Proof.
  destruct (onset_before_last_sample step_cdf reference) as (o & Ho & _).
  - cbn. lra.
  - cbn. lra.
  - cbn. lra.
  - exists o. exact Ho.
Defined.

(** X8.  The appended zero of [d2V_dt] lies in every band around zero: when
    [threshold_d2V_dt_min <= 0 <= threshold_d2V_dt_max] and the last sample of
    the grid is inside the search window, the inflection detector always
    reports an event. *)
Theorem inflection_found_at_padding (ndtr : R -> R) (c : config) :
  dt c <> 0 -> 0 < T c / dt c ->
  threshold_d2V_dt_min c <= 0 <= threshold_d2V_dt_max c ->
  exists o, run ndtr c = Ok o
    /\ Out.d2V_dt o !! (length (Out.time o) - 1)%nat = Some (Fin 0)
    /\ forall t : R,
         Out.time o !! (length (Out.time o) - 1)%nat = Some (Fin t) ->
         search_window c t ->
         exists t' v' : num,
           Out.threshold_t_2 o = Some t' /\ Out.threshold_v_2 o = Some v'.
Proof.
  intros Hdt HT Hband.
  destruct (run_detectors ndtr c Hdt HT)
    as (s & Hrun & _ & HlenV & HN & _ & Hinf).
  cbv zeta in *.
  exists (output_of c (stimulus ndtr c (grid c)) s).
  split; [exact Hrun|].
  assert (Hlast : Out.d2V_dt (output_of c (stimulus ndtr c (grid c)) s)
                    !! (grid_size c - 1)%nat = Some (Fin 0)).
  { cbn [output_of Out.d2V_dt].
    pose proof (lookup_derivative_last (dt c) (derivative (dt c) (St.V s))) as H.
    rewrite length_derivative, HlenV in H by lia. exact H. }
  cbn [output_of Out.time] in *. rewrite length_grid.
  split; [exact Hlast|].
  intros t Ht Hwin.
  destruct Hinf as [(i0 & t' & v & _ & _ & _ & _ & Hrt & Hrv) | (Hno & _)].
  - exists t', v. split; assumption.
  - exfalso. apply (Hno (grid_size c - 1)%nat).
    exists t, 0. repeat split; try assumption; lra.
Qed.

Lemma inflection_found_at_padding_witness :
  exists o, run step_cdf inhibitory5 = Ok o
    /\ Out.d2V_dt o !! (length (Out.time o) - 1)%nat = Some (Fin 0).
Proof.
  destruct (inflection_found_at_padding step_cdf inhibitory5) as (o & Ho & H & _).
  - cbn. lra.
  - cbn. lra.
  - cbn. lra.
  - exists o. split; [exact Ho | exact H].
Defined.

(** ** Range of the stimulus *)

Lemma step_cdf_monotone (x y : R) : x <= y -> step_cdf x <= step_cdf y.
Proof.
  intros H. unfold step_cdf.
  destruct (Rle_dec 0 x), (Rle_dec 0 y); lra.
Qed.

Lemma step_cdf_range (x : R) : 0 <= step_cdf x <= 1.
Proof. unfold step_cdf. destruct (Rle_dec 0 x); lra. Qed.

(** X9.  For a non-decreasing [ndtr] with values in [[0, 1]], a positive
    width and a non-negative duration, every stimulus sample of a run is
    finite and lies between 0 and the step strength [A]. *)
Theorem stimulus_within_amplitude (ndtr : R -> R) (c : config) :
  (forall x y : R, x <= y -> ndtr x <= ndtr y) ->
  (forall x : R, 0 <= ndtr x <= 1) ->
  dt c <> 0 -> 0 < T c / dt c ->
  0 < StepWidth c -> 0 <= StepDuration c ->
  exists o, run ndtr c = Ok o
    /\ forall (i : nat) (x : num),
         Out.Ix o !! i = Some x ->
         exists r : R,
           x = Fin r
           /\ (0 <= StepStrength c -> 0 <= r <= StepStrength c)
           /\ (StepStrength c <= 0 -> StepStrength c <= r <= 0).
Proof.
  intros Hmono Hrange Hdt HT Hw HD.
  destruct (run_ok ndtr c Hdt HT) as (s & _ & _ & Hrun).
  exists (output_of c (stimulus ndtr c (grid c)) s).
  split; [exact Hrun|]. cbn [output_of Out.Ix].
  intros i x Hx.
  pose proof (lookup_lt_Some _ _ _ Hx) as Hi.
  rewrite length_stimulus, length_grid in Hi.
  rewrite (lookup_stimulus ndtr c (grid c) i (INR i * dt c) Hw (lookup_grid c i Hi))
    in Hx.
  injection Hx as <-. eexists. split; [reflexivity|].
  set (t := INR i * dt c).
  assert (Hle : (t - (StepTime c + StepDuration c)) / StepWidth c
                <= (t - StepTime c) / StepWidth c).
  { unfold Rdiv. apply Rmult_le_compat_r; [|lra].
    apply Rlt_le, Rinv_0_lt_compat. exact Hw. }
  pose proof (Hmono _ _ Hle) as H1.
  pose proof (Hrange ((t - StepTime c) / StepWidth c)) as H2.
  pose proof (Hrange ((t - (StepTime c + StepDuration c)) / StepWidth c)) as H3.
  split; intros HA; nra.
Qed.

Lemma stimulus_within_amplitude_witness :
  exists o, run step_cdf inhibitory5 = Ok o
    /\ forall (i : nat) (x : num),
         Out.Ix o !! i = Some x ->
         exists r : R, x = Fin r /\ -1 <= r <= 0.
Proof.
  destruct (stimulus_within_amplitude step_cdf inhibitory5) as (o & Ho & H).
  - exact step_cdf_monotone.
  - exact step_cdf_range.
  - cbn. lra.
  - cbn. lra.
  - cbn. lra.
  - cbn. lra.
  - exists o. split; [exact Ho|]. intros i x Hx.
    destruct (H i x Hx) as (r & Hr & _ & Hneg).
    exists r. split; [exact Hr|]. apply Hneg. cbn. lra.
Defined.

(** ** A run started at a pole *)

Lemma nadd_NaN_r (a : num) : (a + NaN)%num = NaN.
Proof. destruct a; reflexivity. Qed.

Lemma Iion_NaN (m h V : num) : Iion NaN m h V = NaN.
Proof.
  unfold Iion, IK. cbn [npow lift1 nmul nneg lift2].
  rewrite nadd_NaN_r. reflexivity.
Qed.

(** X10.  A run started at [V0 = -55], the pole of [alphan], raises nothing
    and is poisoned by nan: every sample of [n] and every sample of [V] after
    the first is nan, and with a non-negative [threshold_dV_dt] the onset
    detector reports no event. *)
Theorem pole_start_poisons_run (ndtr : R -> R) (c : config) :
  dt c <> 0 -> 0 < T c / dt c -> V0 c = -55 ->
  exists o, run ndtr c = Ok o
    /\ (forall i : nat, (i < length (Out.time o))%nat ->
          Out.n o !! i = Some NaN)
    /\ (forall i : nat, (1 <= i < length (Out.time o))%nat ->
          Out.V o !! i = Some NaN)
    /\ (0 <= threshold_dV_dt c ->
        Out.threshold_t o = None /\ Out.threshold_v o = None).
Proof.
  intros Hdt HT HV0.
  destruct (run_detectors ndtr c Hdt HT)
    as (s & Hrun0 & Hinv & HlenV & HN & Hon & _).
  cbv zeta in *.
  exists (output_of c (stimulus ndtr c (grid c)) s).
  split; [exact Hrun0|].
  cbn [output_of Out.time Out.n Out.V] in *. rewrite length_grid.
  assert (Hn : forall i : nat, (i < grid_size c)%nat -> St.n s !! i = Some NaN).
  { induction i as [|i IH]; intros Hi.
    - rewrite (inv_n0 _ _ _ _ _ _ Hinv), HV0.
      f_equal. exact (proj1 ninfty_pole).
    - destruct (inv_steps _ _ _ _ _ _ Hinv i)
        as (Vi & ni & mi & hi & Ixi & _ & H2 & _ & _ & _ & H6 & _); [lia|].
      rewrite IH in H2 by lia. injection H2 as <-.
      replace (S i) with (i + 1)%nat by lia. rewrite H6. reflexivity. }
  assert (HV : forall i : nat, (1 <= i < grid_size c)%nat -> St.V s !! i = Some NaN).
  { intros [|i] Hi; [lia|].
    destruct (inv_steps _ _ _ _ _ _ Hinv i)
      as (Vi & ni & mi & hi & Ixi & _ & H2 & _ & _ & _ & _ & _ & _ & H9); [lia|].
    rewrite Hn in H2 by lia. injection H2 as <-.
    replace (S i) with (i + 1)%nat by lia. rewrite H9. f_equal.
    rewrite Iion_NaN. cbn [nadd nmul ndiv lift2]. apply nadd_NaN_r. }
  split; [exact Hn|]. split; [exact HV|].
  intros Hthr.
  destruct Hon as [(i0 & t & v & (d & Hd & Hlt) & _) | (_ & H1 & H2)];
    [exfalso | split; assumption].
  cbn [output_of Out.dV_dt] in Hd.
  pose proof (lookup_lt_Some _ _ _ Hd) as Hi.
  rewrite length_derivative, HlenV in Hi by lia.
  destruct (decide (i0 = grid_size c - 1)%nat) as [->|Hne].
  - rewrite <- HlenV, lookup_derivative_last in Hd. injection Hd as <-. lra.
  - destruct (lookup_lt_is_Some_2 (St.V s) i0) as [x Hx]; [lia|].
    rewrite (lookup_derivative (dt c) (St.V s) i0 x NaN Hx) in Hd
      by (apply HV; lia).
    discriminate Hd.
Qed.

Lemma pole_start_poisons_run_witness :
  exists o,
    run step_cdf
      {| T := 2.5; dt := 0.5;
         StepStrength := 30; StepTime := 0; StepWidth := 0.5;
         StepDuration := 0.5;
         V0 := -55;
         threshold_dV_dt := 15;
         threshold_d2V_dt_min := -0.01; threshold_d2V_dt_max := 0.01 |} = Ok o
    /\ Out.threshold_t o = None.
Proof.
  destruct (pole_start_poisons_run step_cdf
              {| T := 2.5; dt := 0.5;
                 StepStrength := 30; StepTime := 0; StepWidth := 0.5;
                 StepDuration := 0.5;
                 V0 := -55;
                 threshold_dV_dt := 15;
                 threshold_d2V_dt_min := -0.01; threshold_d2V_dt_max := 0.01 |})
    as (o & Ho & _ & _ & H).
  - cbn. lra.
  - cbn. lra.
  - reflexivity.
  - exists o. split; [exact Ho|]. apply H. cbn. lra.
Defined.

(** ** The search for a target voltage *)

Lemma elem_of_np_where_from (k : nat) (mask : list bool) (j : nat) :
  j ∈ np_where_from k mask
  <-> (k <= j)%nat /\ mask !! (j - k)%nat = Some true.
Proof.
  revert k. induction mask as [|b mask IH]; intros k; cbn [np_where_from].
  - rewrite elem_of_nil. split; [tauto | intros [_ H]; discriminate].
  - assert (Hstep : j ∈ np_where_from (S k) mask
                    <-> (k < j)%nat /\ (b :: mask) !! (j - k)%nat = Some true).
    { rewrite IH. split.
      - intros [H1 H2]. split; [lia|].
        replace (j - k)%nat with (S (j - S k)) by lia. exact H2.
      - intros [H1 H2]. split; [lia|].
        replace (j - k)%nat with (S (j - S k)) in H2 by lia. exact H2. }
    destruct b.
    + rewrite elem_of_cons, Hstep. split.
      * intros [->|[H1 H2]]; [|split; [lia | exact H2]].
        split; [lia|]. replace (k - k)%nat with 0%nat by lia. reflexivity.
      * intros [H1 H2]. destruct (decide (j = k)) as [->|Hne]; [left; reflexivity|].
        right. split; [lia | exact H2].
    + rewrite Hstep. split.
      * intros [H1 H2]. split; [lia | exact H2].
      * intros [H1 H2]. split; [|exact H2].
        destruct (decide (j = k)) as [->|Hne]; [|lia].
        replace (k - k)%nat with 0%nat in H2 by lia. discriminate.
Qed.

Lemma elem_of_np_where (mask : list bool) (j : nat) :
  j ∈ np_where mask <-> mask !! j = Some true.
Proof.
  unfold np_where. rewrite elem_of_np_where_from.
  replace (j - 0)%nat with j by lia. split; [tauto | intros H; split; [lia | exact H]].
Qed.

Lemma np_where_from_increasing (k : nat) (mask : list bool) (a b ia ib : nat) :
  (a < b)%nat ->
  np_where_from k mask !! a = Some ia -> np_where_from k mask !! b = Some ib ->
  (ia < ib)%nat.
Proof.
  revert k a b. induction mask as [|b0 mask IH]; intros k a b Hab Ha Hb;
    cbn [np_where_from] in *; [discriminate|].
  destruct b0; [|exact (IH (S k) a b Hab Ha Hb)].
  destruct b as [|b]; [lia|]. cbn in Hb.
  destruct a as [|a].
  - cbn in Ha. injection Ha as <-.
    apply list_elem_of_lookup_2, elem_of_np_where_from in Hb. lia.
  - cbn in Ha. apply (IH (S k) a b); [lia | exact Ha | exact Hb].
Qed.

Lemma take_indices_ok (a : list num) (idx : list nat) :
  (forall i : nat, i ∈ idx -> (i < length a)%nat) ->
  take_indices a idx = Ok ((fun i : nat => a !!! i) <$> idx).
Proof.
  induction idx as [|i idx IH]; intros H; [reflexivity|].
  cbn [take_indices]. rewrite getitem_lt by (apply H; left). cbn [bind].
  rewrite IH by (intros j Hj; apply H; right; exact Hj). reflexivity.
Qed.

Lemma print_samples_ok (time V d2V_dt : list num) (idx : list nat) :
  (forall i : nat, i ∈ idx ->
     (i < length time)%nat /\ (i < length V)%nat /\ (i < length d2V_dt)%nat) ->
  print_samples time V d2V_dt idx
  = Ok ((fun i : nat => SampleLine (time !!! i) (V !!! i) (d2V_dt !!! i))
          <$> idx).
Proof.
  induction idx as [|i idx IH]; intros H; [reflexivity|].
  cbn [print_samples]. destruct (H i) as (H1 & H2 & H3); [left|].
  rewrite (getitem_lt time i H1). cbn [bind].
  rewrite (getitem_lt V i H2). cbn [bind].
  rewrite (getitem_lt d2V_dt i H3). cbn [bind].
  rewrite IH by (intros j Hj; apply H; right; exact Hj). reflexivity.
Qed.

Lemma elem_of_indices_at_V_target (V : list num) (i : nat) :
  i ∈ indices_at_V_target V
  <-> exists v : R, V !! i = Some (Fin v) /\ Rabs (v - V_target) < tolerance.
Proof.
  unfold indices_at_V_target. rewrite elem_of_np_where, list_lookup_fmap. split.
  - destruct (V !! i) as [[v|]|]; cbn; intros H; try discriminate.
    exists v. split; [reflexivity|]. apply R_ltb_true. congruence.
  - intros (v & -> & Hv). cbn. f_equal. apply R_ltb_true. exact Hv.
Qed.

Lemma target_report_ok (time V d2V_dt : list num) :
  length V = length time -> length d2V_dt = length time ->
  target_report time V d2V_dt
  = Ok match indices_at_V_target V with
       | [] => [NoValuesLine V_target; NoD2VLine V_target]
       | i0 :: _ =>
           ((fun i : nat => SampleLine (time !!! i) (V !!! i) (d2V_dt !!! i))
              <$> indices_at_V_target V)
           ++ [ApproxLine V_target (d2V_dt !!! i0)]
       end.
Proof.
  intros HV Hd.
  assert (Hin : forall i : nat, i ∈ indices_at_V_target V -> (i < length time)%nat).
  { intros i Hi. apply elem_of_indices_at_V_target in Hi as (v & Hv & _).
    apply lookup_lt_Some in Hv. lia. }
  unfold target_report.
  rewrite take_indices_ok by (intros i Hi; specialize (Hin i Hi); lia).
  cbn [bind]. rewrite length_fmap.
  destruct (indices_at_V_target V) as [|i0 idx] eqn:E; [reflexivity|].
  cbn [length Nat.ltb Nat.leb].
  rewrite print_samples_ok by (intros i Hi; specialize (Hin i Hi); lia).
  cbn [bind]. reflexivity.
Qed.

(** X11.  The search for [V_target] in the traces of a run raises nothing.
    Its indices are exactly those of the finite samples of [V] within
    [tolerance] of [V_target], in increasing order; it prints one line per
    index with [time], [V] and [d2V_dt] there, then [d2V_dt] at the first
    index, or the two "not found" lines when there is no index. *)
Theorem target_search_report (ndtr : R -> R) (c : config) :
  dt c <> 0 -> 0 < T c / dt c ->
  exists o, run ndtr c = Ok o
    /\ (forall i : nat,
          i ∈ indices_at_V_target (Out.V o)
          <-> exists v : R,
                Out.V o !! i = Some (Fin v)
                /\ Rabs (v - V_target) < tolerance)
    /\ (forall a b ia ib : nat,
          (a < b)%nat ->
          indices_at_V_target (Out.V o) !! a = Some ia ->
          indices_at_V_target (Out.V o) !! b = Some ib ->
          (ia < ib)%nat)
    /\ target_report (Out.time o) (Out.V o) (Out.d2V_dt o)
       = Ok match indices_at_V_target (Out.V o) with
            | [] => [NoValuesLine V_target; NoD2VLine V_target]
            | i0 :: _ =>
                ((fun i : nat =>
                    SampleLine (Out.time o !!! i) (Out.V o !!! i)
                      (Out.d2V_dt o !!! i))
                   <$> indices_at_V_target (Out.V o))
                ++ [ApproxLine V_target (Out.d2V_dt o !!! i0)]
            end.
Proof.
  intros Hdt HT.
  destruct (run_detectors ndtr c Hdt HT) as (s & Hrun & _ & HlenV & HN & _).
  cbv zeta in *.
  exists (output_of c (stimulus ndtr c (grid c)) s).
  split; [exact Hrun|].
  split; [intros i; apply elem_of_indices_at_V_target|].
  split; [intros a b ia ib; apply np_where_from_increasing|].
  apply target_report_ok; cbn [output_of Out.time Out.V Out.d2V_dt];
    rewrite length_grid; [exact HlenV|].
  rewrite !length_derivative; rewrite ?length_derivative; lia.
Qed.

Lemma target_search_report_witness :
  exists o, run step_cdf reference = Ok o
    /\ forall i : nat,
         i ∈ indices_at_V_target (Out.V o) ->
         exists v : R, Out.V o !! i = Some (Fin v).
Proof.
  destruct (target_search_report step_cdf reference) as (o & Ho & H & _).
  - cbn. lra.
  - cbn. lra.
  - exists o. split; [exact Ho|]. intros i Hi.
    apply H in Hi as (v & Hv & _). exists v. exact Hv.
Defined.

(** ** Limits of the voltage axis *)

Lemma foldl_nmin_NaN (l : list num) : foldl nmin NaN l = NaN.
Proof. induction l as [|y l IH]; [reflexivity | exact IH]. Qed.

Lemma foldl_nmax_NaN (l : list num) : foldl nmax NaN l = NaN.
Proof. induction l as [|y l IH]; [reflexivity | exact IH]. Qed.

Lemma foldl_nmin_has_NaN (x : num) (l : list num) :
  NaN ∈ l -> foldl nmin x l = NaN.
Proof.
  revert x. induction l as [|y l IH]; intros x H; [apply elem_of_nil in H; tauto|].
  apply elem_of_cons in H as [<-|H]; cbn [foldl].
  - destruct x; apply foldl_nmin_NaN.
  - apply IH. exact H.
Qed.

Lemma foldl_nmax_has_NaN (x : num) (l : list num) :
  NaN ∈ l -> foldl nmax x l = NaN.
Proof.
  revert x. induction l as [|y l IH]; intros x H; [apply elem_of_nil in H; tauto|].
  apply elem_of_cons in H as [<-|H]; cbn [foldl].
  - destruct x; apply foldl_nmax_NaN.
  - apply IH. exact H.
Qed.

Lemma foldl_nmin_fin (x : R) (l : list num) :
  (forall y : num, y ∈ l -> is_finite y) ->
  exists lo : R,
    foldl nmin (Fin x) l = Fin lo /\ lo <= x
    /\ forall r : R, Fin r ∈ l -> lo <= r.
Proof.
  revert x. induction l as [|y l IH]; intros x H.
  - exists x. split; [reflexivity|]. split; [lra|].
    intros r Hr. apply elem_of_nil in Hr. tauto.
  - destruct y as [y|]; [|destruct (H NaN); left].
    destruct (IH (Rmin x y)) as (lo & Hlo & Hle & Hall).
    { intros z Hz. apply H. right. exact Hz. }
    exists lo. split; [exact Hlo|].
    pose proof (Rmin_l x y). pose proof (Rmin_r x y).
    split; [lra|]. intros r Hr.
    apply elem_of_cons in Hr as [[= ->]|Hr]; [lra | apply Hall; exact Hr].
Qed.

Lemma foldl_nmax_fin (x : R) (l : list num) :
  (forall y : num, y ∈ l -> is_finite y) ->
  exists hi : R,
    foldl nmax (Fin x) l = Fin hi /\ x <= hi
    /\ forall r : R, Fin r ∈ l -> r <= hi.
Proof.
  revert x. induction l as [|y l IH]; intros x H.
  - exists x. split; [reflexivity|]. split; [lra|].
    intros r Hr. apply elem_of_nil in Hr. tauto.
  - destruct y as [y|]; [|destruct (H NaN); left].
    destruct (IH (Rmax x y)) as (hi & Hhi & Hle & Hall).
    { intros z Hz. apply H. right. exact Hz. }
    exists hi. split; [exact Hhi|].
    pose proof (Rmax_l x y). pose proof (Rmax_r x y).
    split; [lra|]. intros r Hr.
    apply elem_of_cons in Hr as [[= ->]|Hr]; [lra | apply Hall; exact Hr].
Qed.

Lemma np_min_fin (V : list num) :
  V <> [] -> (forall y : num, y ∈ V -> is_finite y) ->
  exists lo : R, np_min V = Some (Fin lo) /\ forall r : R, Fin r ∈ V -> lo <= r.
Proof.
  intros Hne H. destruct V as [|[x|] V]; [contradiction | | destruct (H NaN); left].
  destruct (foldl_nmin_fin x V) as (lo & Hlo & Hle & Hall).
  { intros y Hy. apply H. right. exact Hy. }
  exists lo. cbn [np_min]. rewrite Hlo. split; [reflexivity|].
  intros r Hr. apply elem_of_cons in Hr as [[= ->]|Hr]; [lra | apply Hall; exact Hr].
Qed.

Lemma np_max_fin (V : list num) :
  V <> [] -> (forall y : num, y ∈ V -> is_finite y) ->
  exists hi : R, np_max V = Some (Fin hi) /\ forall r : R, Fin r ∈ V -> r <= hi.
Proof.
  intros Hne H. destruct V as [|[x|] V]; [contradiction | | destruct (H NaN); left].
  destruct (foldl_nmax_fin x V) as (hi & Hhi & Hle & Hall).
  { intros y Hy. apply H. right. exact Hy. }
  exists hi. cbn [np_max]. rewrite Hhi. split; [reflexivity|].
  intros r Hr. apply elem_of_cons in Hr as [[= ->]|Hr]; [lra | apply Hall; exact Hr].
Qed.

Lemma np_min_NaN (V : list num) : NaN ∈ V -> np_min V = Some NaN.
Proof.
  destruct V as [|x V]; intros H; [apply elem_of_nil in H; tauto|].
  cbn [np_min]. f_equal. apply elem_of_cons in H as [<-|H].
  - apply foldl_nmin_NaN.
  - apply foldl_nmin_has_NaN. exact H.
Qed.

Lemma np_max_NaN (V : list num) : NaN ∈ V -> np_max V = Some NaN.
Proof.
  destruct V as [|x V]; intros H; [apply elem_of_nil in H; tauto|].
  cbn [np_max]. f_equal. apply elem_of_cons in H as [<-|H].
  - apply foldl_nmax_NaN.
  - apply foldl_nmax_has_NaN. exact H.
Qed.

(** X12.  The limits handed to [plt.axis] are [0, T] and a voltage range:
    no error on a non-empty trace and [None] (numpy's ValueError) on an empty
    one; for a finite trace the range contains [-70 .. -57] and every sample
    of [V]; a single nan sample makes both voltage limits nan. *)
Theorem axis_limits_bracket_trace (T : R) (V : list num) :
  (V = [] -> axis_limits T V = None)
  /\ (V <> [] ->
      exists lo hi : num,
        axis_limits T V = Some [Fin 0; Fin T; lo; hi]
        /\ ((forall y : num, y ∈ V -> is_finite y) ->
            exists l h : R,
              lo = Fin l /\ hi = Fin h /\ l <= -70 /\ -57 <= h
              /\ forall r : R, Fin r ∈ V -> l <= r <= h)
        /\ (NaN ∈ V -> lo = NaN /\ hi = NaN)).
Proof.
  split; [intros ->; reflexivity|].
  intros Hne. destruct V as [|x V]; [contradiction|].
  unfold axis_limits. cbn [np_min np_max foldl].
  eexists _, _. split; [reflexivity|]. split.
  - intros Hfin.
    destruct (np_min_fin (x :: V) Hne Hfin) as (l & Hl & Hlall).
    destruct (np_max_fin (x :: V) Hne Hfin) as (h & Hh & Hhall).
    cbn [np_min np_max] in Hl, Hh. injection Hl as ->. injection Hh as ->.
    exists (Rmin (-70) l), (Rmax (-57) h).
    split; [reflexivity|]. split; [reflexivity|].
    pose proof (Rmin_l (-70) l). pose proof (Rmin_r (-70) l).
    pose proof (Rmax_l (-57) h). pose proof (Rmax_r (-57) h).
    split; [lra|]. split; [lra|].
    intros r Hr. specialize (Hlall r Hr). specialize (Hhall r Hr). lra.
  - intros Hnan.
    pose proof (np_min_NaN (x :: V) Hnan) as Hl.
    pose proof (np_max_NaN (x :: V) Hnan) as Hh.
    cbn [np_min np_max] in Hl, Hh. injection Hl as ->. injection Hh as ->.
    split; reflexivity.
Qed.
